(** * ThugLogging: the logging facade of Thug

    A shallow embedding of [src/Logging/ThugLogging.py] (class
    [ThugLogging]) and the properties of its method resolver, its
    dispatch operations, its redirect resolution and its content store.

    The Python methods become computations in a small monad [M] that
    threads the state of the object and of its surroundings, collects the
    calls made to backends and collaborators, and has a result for a
    raised exception and one for a loop that does not end. *)

From Stdlib Require Import Ascii String.
From stdpp Require Import base option list strings gmap pretty.

Open Scope string_scope.
Open Scope list_scope.

(** ** Python values *)

(** The values stored in a sample dictionary and handed to collaborators. *)
Inductive Value :=
| VNone
| VStr (s : string)
| VInt (z : Z).

Global Instance Value_eq_dec : EqDecision Value.
Proof. solve_decision. Defined.

(** [str(v)], as the [%s] conversion produces it. *)
Definition str_value (v : Value) : string :=
  match v with
  | VNone => "None"
  | VStr s => s
  | VInt z => pretty z
  end.

(** [str(x)] for an optional string: [None] prints as "None". *)
Definition str_opt (o : option string) : string :=
  match o with
  | None => "None"
  | Some s => s
  end.

(** Truth value of an optional string: [None] and the empty string are false. *)
Definition truthy_url (o : option string) : bool :=
  match o with
  | None => false
  | Some s => negb (String.eqb s "")
  end.

(** A sample is a Python [dict]; the caller and the callee share it, so a
    sample is passed as a reference into the heap. *)
Definition loc := nat.
Abbreviation Dict := (gmap string Value).

(** ** Backend modules and handlers *)

(** A backend module, as far as the dispatcher sees it: the names of the
    operations it exposes.  [mod_name] identifies the instance. *)
Record Module := mkModule {
  mod_name : string;
  mod_ops : gset string
}.

(** A bound method: an operation of one module instance. *)
Record Handler := Bound {
  im_self : string;
  im_func : string
}.

Global Instance Handler_eq_dec : EqDecision Handler.
Proof. solve_decision. Defined.

(** [getattr(module, name, None)]. A bound method is a true value, so the
    test [if m] of [resolve_method] is the test for [Some]. Only the
    operations of a module are modelled: a data attribute, such as
    [formats], is not the name of an event. *)
Definition getattr (module : Module) (name : string) : option Handler :=
  if decide (name ∈ mod_ops module) then Some (Bound (mod_name module) name)
  else None.

(** ** Events: the calls that leave the facade *)

(** The backends and the collaborators (classifiers, certificate fetcher,
    analysis services, sample builder) are not part of this file. A call to
    one of them is recorded with its arguments; it is taken to return
    normally and to leave the facade and the sample dictionaries as they
    are. *)

(** The arguments a backend handler is called with. *)
Inductive Call :=
| ArgsBehaviorWarn (description cve : option string) (method : string)
| ArgsCodeSnippet (snippet language relationship method : string)
| ArgsLogFile (sample : Dict) (url params : option string)
| ArgsConnection (source destination : option string) (method : string)
                 (flags : Dict)
| ArgsAnalysis (sample : loc) (report : string).

Inductive Event :=
| HandlerCall (m : Handler) (args : Call)
| LogWarning (description : option string)
| URLClassify (url : option string)
| FetchCertificate (url : option string)
| BuildSample (data : Value) (url : option string)
| VirusTotalAnalyze (data : Value) (sample : loc) (baseDir : option string)
| HoneyAgentAnalyze (data : Value) (sample : loc) (baseDir : option string)
                    (params : option string)
| SampleClassify (data : Value) (md5 : Value).

(** ** The file system seen by [store_content] *)

Definition EEXIST : Z := 17%Z.
Definition EISDIR : Z := 21%Z.

(** Directories, files with their content, and the paths whose creation
    the system refuses, each with the [errno] it reports. *)
Record FS := mkFS {
  fs_dirs : gset string;
  fs_files : gmap string string;
  fs_faults : gmap string Z
}.

(** ** State *)

Record State := mkState {
  modules : list (string * Module);          (* self.modules, in the order of
                                                insertion, which is the order
                                                values() iterates in *)
  methods_cache : gmap string (list Handler); (* self.methods_cache *)
  baseDir : option string;                   (* self.baseDir *)
  file_logging : bool;                       (* log.ThugOpts.file_logging *)
  heap : gmap loc Dict;                      (* the sample dictionaries *)
  fs : FS
}.

Definition set_methods_cache (c : gmap string (list Handler)) (st : State) : State :=
  mkState (modules st) c (baseDir st) (file_logging st) (heap st) (fs st).

Definition set_heap (h : gmap loc Dict) (st : State) : State :=
  mkState (modules st) (methods_cache st) (baseDir st) (file_logging st) h (fs st).

Definition set_fs (f : FS) (st : State) : State :=
  mkState (modules st) (methods_cache st) (baseDir st) (file_logging st) (heap st) f.

Definition set_modules (ms : list (string * Module)) (st : State) : State :=
  mkState ms (methods_cache st) (baseDir st) (file_logging st) (heap st) (fs st).

(** ** The monad *)

Inductive Exn :=
| KeyError (key : string)
| OSError (errno : Z)
| IOError (errno : Z).

Inductive Res (A : Type) :=
| Ok (a : A)
| Raise (e : Exn)
| Diverge.
Arguments Ok {A} a.
Arguments Raise {A} e.
Arguments Diverge {A}.

Definition M (A : Type) : Type := State -> Res A * State * list Event.

Definition ret {A} (a : A) : M A := fun st => (Ok a, st, []).

Definition bind {A B} (m : M A) (k : A -> M B) : M B :=
  fun st =>
    match m st with
    | (Ok a, st1, t1) =>
        match k a st1 with
        | (r, st2, t2) => (r, st2, t1 ++ t2)
        end
    | (Raise e, st1, t1) => (Raise e, st1, t1)
    | (Diverge, st1, t1) => (Diverge, st1, t1)
    end.

Definition raise {A} (e : Exn) : M A := fun st => (Raise e, st, []).
Definition diverge {A} : M A := fun st => (Diverge, st, []).
Definition emit (e : Event) : M unit := fun st => (Ok tt, st, [e]).
Definition get_state : M State := fun st => (Ok st, st, []).
Definition put_state (st' : State) : M unit := fun _ => (Ok tt, st', []).

Declare Scope py_scope.
Delimit Scope py_scope with py.
Notation "x <- c1 ;; c2" := (bind c1 (fun x => c2))
  (at level 100, c1 at next level, right associativity) : py_scope.
Notation "c1 ;; c2" := (bind c1 (fun _ => c2))
  (at level 100, right associativity) : py_scope.
Open Scope py_scope.

(** [for x in l: body(x)] *)
Fixpoint for_each {A} (l : list A) (body : A -> M unit) : M unit :=
  match l with
  | [] => ret tt
  | x :: l' => body x ;; for_each l' body
  end.

(** ** resolve_method *)

(** The scan of [resolve_method]: the loop over [self.modules.values()]. *)
Definition scan_modules (ms : list (string * Module)) (name : string)
  : list Handler :=
  fold_left
    (fun methods km =>
       match getattr (snd km) name with
       | Some m => methods ++ [m]
       | None => methods
       end)
    ms [].

Definition resolve_method (name : string) : M (list Handler) :=
  st <- get_state ;;
  match methods_cache st !! name with
  | Some methods => ret methods
  | None =>
      let methods := scan_modules (modules st) name in
      put_state (set_methods_cache (<[name := methods]> (methods_cache st)) st) ;;
      ret methods
  end.

(** The handlers [resolve_method name] answers in state [st]. *)
Definition resolved (name : string) (st : State) : list Handler :=
  match methods_cache st !! name with
  | Some methods => methods
  | None => scan_modules (modules st) name
  end.

(** The state [resolve_method name] leaves. *)
Definition remember (name : string) (st : State) : State :=
  match methods_cache st !! name with
  | Some _ => st
  | None =>
      set_methods_cache
        (<[name := scan_modules (modules st) name]> (methods_cache st)) st
  end.

(** The broadcast every dispatch operation ends in:
    [for m in self.resolve_method(name): m(args)]. *)
Definition broadcast (name : string) (args : Call) : M unit :=
  methods <- resolve_method name ;;
  for_each methods (fun m => emit (HandlerCall m args)).

(** ** Dispatch operations *)

Definition add_behavior_warn (description cve : option string)
    (method : string) : M unit :=
  broadcast "add_behavior_warn" (ArgsBehaviorWarn description cve method) ;;
  emit (LogWarning description).

Definition eval_min_length_logging : nat := 4.

Definition check_snippet (s : string) : bool :=
  (String.length s <? eval_min_length_logging)%nat.

Definition add_code_snippet (snippet language relationship method : string)
    (check : bool) : M unit :=
  if check && check_snippet snippet then ret tt
  else broadcast "add_code_snippet"
         (ArgsCodeSnippet snippet language relationship method).

Definition log_connection (source destination : option string)
    (method : string) (flags : Dict) : M unit :=
  broadcast "log_connection" (ArgsConnection source destination method flags).

(** ** Sample dictionaries *)

(** The dictionary a reference points to.  References come from the
    caller, who holds the dictionary; a location that was never allocated
    reads as the empty dictionary. *)
Definition deref (sample : loc) : M Dict :=
  st <- get_state ;; ret (default ∅ (heap st !! sample)).

(** [sample[key]] *)
Definition dict_getitem (sample : loc) (key : string) : M Value :=
  d <- deref sample ;;
  match d !! key with
  | Some v => ret v
  | None => raise (KeyError key)
  end.

(** [sample.pop(key, dflt)] *)
Definition dict_pop (sample : loc) (key : string) (dflt : Value) : M Value :=
  d <- deref sample ;;
  match d !! key with
  | Some v =>
      st <- get_state ;;
      put_state (set_heap (<[sample := delete key d]> (heap st)) st) ;;
      ret v
  | None => ret dflt
  end.

(** A new dictionary object. *)
Definition alloc (d : Dict) : M loc :=
  st <- get_state ;;
  let l := fresh (dom (heap st)) in
  put_state (set_heap (<[l := d]> (heap st)) st) ;;
  ret l.

(** ** log_file *)

(** [__log_file]: [copy.deepcopy(sample)] hands each backend the value of
    the dictionary; the collaborators receive the reference. *)
Definition __log_file (sample : loc) (data : Value) (url params : option string)
  : M loc :=
  methods <- resolve_method "log_file" ;;
  for_each methods
    (fun m => d <- deref sample ;; emit (HandlerCall m (ArgsLogFile d url params))) ;;
  st <- get_state ;;
  emit (VirusTotalAnalyze data sample (baseDir st)) ;;
  ty <- dict_getitem sample "type" ;;
  (if decide (ty = VStr "JAR")
   then emit (HoneyAgentAnalyze data sample (baseDir st) params)
   else ret tt) ;;
  md5 <- dict_getitem sample "md5" ;;
  emit (SampleClassify data md5) ;;
  ret sample.

Section LogFile.

(** [SampleLogging.build_sample] is not part of this file: its
    answer is a parameter. *)
Variable build_sample : Value -> option string -> option Dict.

Definition log_file (data : Value) (url params : option string)
  : M (option loc) :=
  emit (BuildSample data url) ;;
  match build_sample data url with
  | None => ret None
  | Some d =>
      sample <- alloc d ;;
      r <- __log_file sample data url params ;;
      ret (Some r)
  end.

End LogFile.

(** ** log_redirect *)

Record Hop := mkHop {
  hop_url : option string;
  hop_status_code : Z;
  hop_headers : gmap string string
}.

(** [resp_true] is the truth value of the response object, which is what
    [not response] tests. *)
Record Response := mkResponse {
  resp_true : bool;
  resp_url : option string;
  resp_history : list Hop
}.

(** [for h in reversed(response.history): final = h.url] *)
Definition for_reversed_history (history : list Hop) (final : option string)
  : option string :=
  fold_left (fun _ h => hop_url h) (rev history) final.

(** [while final is None: ...], with [fuel] bounding the number of times the
    body runs: [None] when the fuel does not suffice. *)
Fixpoint while_final_is_None (fuel : nat) (history : list Hop)
    (final : option string) : option (option string) :=
  match final with
  | Some _ => Some final
  | None =>
      match fuel with
      | O => None
      | S fuel' =>
          while_final_is_None fuel' history (for_reversed_history history final)
      end
  end.

Definition redirect_message (h : Hop) : string :=
  "[HTTP Redirection (Status: " +:+ pretty (hop_status_code h) +:+
  ")] Content-Location: " +:+ str_opt (hop_url h) +:+
  " --> Location: " +:+ str_opt (hop_headers h !! "location").

(** The body of the loop over the hops. *)
Definition log_hop (h : Hop) : M unit :=
  let location := hop_headers h !! "location" in
  add_behavior_warn (Some (redirect_message h)) None "Dynamic Analysis" ;;
  log_connection (hop_url h) location "http-redirect" ∅ ;;
  emit (URLClassify (hop_url h)) ;;
  emit (FetchCertificate (hop_url h)).

Definition log_redirect (fuel : nat) (response : option Response)
  : M (option string) :=
  match response with
  | None => ret None
  | Some r =>
      if negb (resp_true r) then ret None
      else
        match resp_history r with
        | [] =>
            (if truthy_url (resp_url r)
             then emit (URLClassify (resp_url r)) ;;
                  emit (FetchCertificate (resp_url r))
             else ret tt) ;;
            ret None
        | _ :: _ =>
            match while_final_is_None fuel (resp_history r) (resp_url r) with
            | None => diverge
            | Some final =>
                for_each (resp_history r) log_hop ;;
                emit (URLClassify final) ;;
                emit (FetchCertificate final) ;;
                ret final
            end
        end
  end.

(** ** store_content *)

(** [os.makedirs(dirname)] on the file system: an existing path answers
    [EEXIST], a refused one its fault, otherwise the directory is there
    afterwards. *)
Definition makedirs_fs (dirname : string) (f : FS) : FS + Z :=
  if decide (dirname ∈ fs_dirs f ∨ dirname ∈ dom (fs_files f)) then inr EEXIST
  else
    match fs_faults f !! dirname with
    | Some e => inr e
    | None => inl (mkFS ({[dirname]} ∪ fs_dirs f) (fs_files f) (fs_faults f))
    end.

(** [open(fname, 'wb')] followed by [fd.write(content)] and the close. *)
Definition write_fs (fname content : string) (f : FS) : FS + Z :=
  if decide (fname ∈ fs_dirs f) then inr EISDIR
  else
    match fs_faults f !! fname with
    | Some e => inr e
    | None => inl (mkFS (fs_dirs f) (<[fname := content]> (fs_files f)) (fs_faults f))
    end.

Definition os_makedirs (dirname : string) : M unit :=
  st <- get_state ;;
  match makedirs_fs dirname (fs st) with
  | inl f => put_state (set_fs f st)
  | inr e => raise (OSError e)
  end.

Definition open_wb_write (fname content : string) : M unit :=
  st <- get_state ;;
  match write_fs fname content (fs st) with
  | inl f => put_state (set_fs f st)
  | inr e => raise (IOError e)
  end.

(** [try: m except: handler] *)
Definition try_except {A} (m : M A) (handler : Exn -> M A) : M A :=
  fun st =>
    match m st with
    | (Raise e, st1, t1) =>
        match handler e st1 with
        | (r, st2, t2) => (r, st2, t1 ++ t2)
        end
    | other => other
    end.

Fixpoint ends_with_sep (s : string) : bool :=
  match s with
  | EmptyString => false
  | String c EmptyString => Ascii.eqb c "/"%char
  | String _ s' => ends_with_sep s'
  end.

(** [os.path.join(a, b)] of [posixpath]. *)
Definition os_path_join (a b : string) : string :=
  if String.prefix "/" b then b
  else if String.eqb a "" || ends_with_sep a then a +:+ b
  else a +:+ "/" +:+ b.

Definition store_content (dirname filename content : string)
  : M (option string) :=
  st <- get_state ;;
  if negb (file_logging st) then ret None
  else
    try_except (os_makedirs dirname)
      (fun e =>
         match e with
         | OSError errno => if decide (errno = EEXIST) then ret tt else raise e
         | _ => raise e
         end) ;;
    let fname := os_path_join dirname filename in
    open_wb_write fname content ;;
    ret (Some fname).

(** ** Analysis module reports *)

Definition log_analysis_module (dirname : string) (sample : loc)
    (report module format : string) : M unit :=
  md5 <- dict_getitem sample "md5" ;;
  let filename := str_value md5 +:+ "." +:+ format in
  store_content dirname filename report ;;
  let method := "log_" +:+ module in
  broadcast method (ArgsAnalysis sample report).

Definition log_androguard (dirname : string) (sample : loc) (report : string)
  : M unit :=
  raw <- dict_pop sample "raw" VNone ;;
  __log_file sample raw None None ;;
  log_analysis_module dirname sample report "androguard" "txt".

(** ** A session *)

(** The operations a caller performs on the facade. *)
Inductive Op :=
| OpResolveMethod (name : string)
| OpAddBehaviorWarn (description cve : option string) (method : string)
| OpAddCodeSnippet (snippet language relationship method : string) (check : bool)
| OpLogFile (data : Value) (url params : option string)
| OpLogConnection (source destination : option string) (method : string)
                  (flags : Dict)
| OpLogRedirect (fuel : nat) (response : option Response)
| OpStoreContent (dirname filename content : string)
| OpLogAnalysisModule (dirname : string) (sample : loc)
                      (report module format : string)
| OpLogAndroguard (dirname : string) (sample : loc) (report : string).

Definition run_op (build_sample : Value -> option string -> option Dict)
    (op : Op) : M unit :=
  match op with
  | OpResolveMethod name => resolve_method name ;; ret tt
  | OpAddBehaviorWarn d c m => add_behavior_warn d c m
  | OpAddCodeSnippet s l r m c => add_code_snippet s l r m c
  | OpLogFile data url params => log_file build_sample data url params ;; ret tt
  | OpLogConnection s d m f => log_connection s d m f
  | OpLogRedirect fuel response => log_redirect fuel response ;; ret tt
  | OpStoreContent d f c => store_content d f c ;; ret tt
  | OpLogAnalysisModule d s r m f => log_analysis_module d s r m f
  | OpLogAndroguard d s r => log_androguard d s r
  end.

(** [session bs st0 st]: [st] is a state of the session that started in
    [st0], after any number of operations, whatever their outcome. *)
Inductive session (build_sample : Value -> option string -> option Dict)
    (st0 : State) : State -> Prop :=
| session_start : session build_sample st0 st0
| session_step st op r st' t :
    session build_sample st0 st ->
    run_op build_sample op st = (r, st', t) ->
    session build_sample st0 st'.

(** ** What the properties speak of *)

(** The modules that implement [name], as bound operations, in the order of
    registration. *)
Definition implementers (name : string) (ms : list (string * Module))
  : list Handler :=
  (fun km => Bound (mod_name (snd km)) name)
    <$> filter (fun km => name ∈ mod_ops (snd km)) ms.

(** A step of the cache: the modules stay, and an entry is either left as it
    was or filled, where there was none, with the scan of the modules. *)
Definition cache_grows (st st' : State) : Prop :=
  modules st' = modules st ∧
  ∀ name,
    methods_cache st' !! name = methods_cache st !! name ∨
    (methods_cache st !! name = None ∧
     methods_cache st' !! name = Some (scan_modules (modules st) name)).

(** [within P Q m]: every run of [m] relates its first and last state by [P]
    and makes only calls that satisfy [Q]. *)
Definition within (P : State -> State -> Prop) (Q : Event -> Prop)
    {A} (m : M A) : Prop :=
  ∀ st r st' t, m st = (r, st', t) -> P st st' ∧ Forall Q t.

(** The messages written to the warning log. *)
Definition warnings (t : list Event) : list (option string) :=
  omap (fun e => match e with LogWarning d => Some d | _ => None end) t.

(** The behavior warnings handed to backends, with the receiving handler. *)
Definition behavior_warn_calls (t : list Event)
  : list (Handler * option string) :=
  omap (fun e =>
          match e with
          | HandlerCall m (ArgsBehaviorWarn d _ _) => Some (m, d)
          | _ => None
          end) t.

(** The connection edges handed to backends: handler, source, destination
    and method. *)
Definition connection_edges (t : list Event)
  : list (Handler * option string * option string * string) :=
  omap (fun e =>
          match e with
          | HandlerCall m (ArgsConnection s d meth _) => Some (m, s, d, meth)
          | _ => None
          end) t.

(** The calls to the URL classifier and to the certificate fetcher. *)
Definition is_url_check (e : Event) : bool :=
  match e with
  | URLClassify _ | FetchCertificate _ => true
  | _ => false
  end.

Definition url_checks (t : list Event) : list Event :=
  filter (fun e => is_url_check e = true) t.

(** One classify-plus-certificate-fetch pair for each URL of the list. *)
Definition check_pairs (urls : list (option string)) : list Event :=
  flat_map (fun u => [URLClassify u; FetchCertificate u]) urls.

Definition is_handler_call (e : Event) : bool :=
  match e with HandlerCall _ _ => true | _ => false end.

(** Calls to the scan, dynamic-execution and classification collaborators. *)
Definition is_analysis_call (e : Event) : bool :=
  match e with
  | VirusTotalAnalyze _ _ _ | HoneyAgentAnalyze _ _ _ _ | SampleClassify _ _ => true
  | _ => false
  end.

Definition is_build_sample (e : Event) : bool :=
  match e with BuildSample _ _ => true | _ => false end.

(** The calls [log_redirect] makes for one hop, given the handlers of
    [add_behavior_warn] and of [log_connection]. *)
Definition hop_events (ws cs : list Handler) (h : Hop) : list Event :=
  ((fun m => HandlerCall m
       (ArgsBehaviorWarn (Some (redirect_message h)) None "Dynamic Analysis"))
     <$> ws) ++
  [LogWarning (Some (redirect_message h))] ++
  ((fun m => HandlerCall m
       (ArgsConnection (hop_url h) (hop_headers h !! "location")
          "http-redirect" ∅))
     <$> cs) ++
  [URLClassify (hop_url h); FetchCertificate (hop_url h)].

(** The most recent hop URL that is not empty: the first one met when the
    hops are scanned from the most recent to the least recent. *)
Definition most_recent_url (history : list Hop) : option string :=
  match filter (fun h => truthy_url (hop_url h) = true) (rev history) with
  | [] => None
  | h :: _ => hop_url h
  end.

(** The state [log_redirect] leaves when there are hops: both handler lists
    are in the cache. *)
Definition redirect_state (st : State) : State :=
  remember "log_connection" (remember "add_behavior_warn" st).

(** ** Sample data *)

Module Sample.

Definition json := mkModule "json"
  {["add_behavior_warn"; "log_connection"; "log_file"; "add_code_snippet"]}.
Definition text := mkModule "text" {["log_connection"]}.
Definition mongo := mkModule "mongo" {["add_behavior_warn"; "log_androguard"]}.

Definition empty_fs := mkFS ∅ ∅ ∅.

(** A fresh facade with three backends and file logging switched on. *)
Definition st0 : State :=
  mkState [("json", json); ("text", text); ("mongo", mongo)] ∅
    (Some "/logs") true ∅ empty_fs.

(** The same with file logging switched off. *)
Definition st_off : State :=
  mkState [("json", json); ("text", text); ("mongo", mongo)] ∅
    (Some "/logs") false ∅ empty_fs.

(** The file system refuses to create "logs": permission denied. *)
Definition st_denied : State :=
  mkState [("json", json)] ∅ (Some "/logs") true ∅
    (mkFS ∅ ∅ {["logs" := 13%Z]}).

(** A sample dictionary with its raw payload, held at location 0. *)
Definition apk : Dict :=
  {["type" := VStr "APK"; "md5" := VStr "0cc175b9c0f1b6a831c399e269772661";
    "raw" := VStr "PK"]}.

Definition st_apk : State :=
  mkState [("json", json); ("text", text); ("mongo", mongo)] ∅
    (Some "/logs") true {[0%nat := apk]} empty_fs.

Definition hopA := mkHop (Some "http://a/") 301 {["location" := "http://b/"]}.
Definition hopB := mkHop (Some "http://b/") 302 {["location" := "http://c/"]}.

(** A → B → C, ending at C. *)
Definition chain := mkResponse true (Some "http://c/") [hopA; hopB].

(** The same hops, the response itself without URL. *)
Definition chain_no_url := mkResponse true None [hopA; hopB].

(** Hops without URL, the response itself without URL. *)
Definition chain_all_empty :=
  mkResponse true None [mkHop None 301 ∅; mkHop None 302 ∅].

(** No hop, no URL. *)
Definition direct_no_url := mkResponse true None [].

(** No hop, a URL. *)
Definition direct := mkResponse true (Some "http://a/") [].

End Sample.

(** ** Further operations *)

Definition href_message (referer url : option string) : string :=
  "[HREF Redirection (document.location)] Content-Location: " +:+
  str_opt referer +:+ " --> Location: " +:+ str_opt url.

Definition log_href_redirect (referer url : option string) : M unit :=
  add_behavior_warn (Some (href_message referer url)) None "Dynamic Analysis" ;;
  log_connection referer url "href" ∅.

Definition log_virustotal (dirname : string) (sample : loc) (report : string)
  : M unit :=
  log_analysis_module dirname sample report "virustotal" "json".

Definition log_honeyagent (dirname : string) (sample : loc) (report : string)
  : M unit :=
  log_analysis_module dirname sample report "honeyagent" "json".

Definition log_peepdf (dirname : string) (sample : loc) (report : string)
  : M unit :=
  log_analysis_module dirname sample report "peepdf" "xml".

(** The file a report of [log_analysis_module] goes to. *)
Definition report_path (dirname : string) (md5 : Value) (format : string)
  : string :=
  os_path_join dirname (str_value md5 +:+ "." +:+ format).

(** ** Operations with arguments of their own *)

(** The arguments of the remaining events, and the traces in which they
    occur beside the events above. *)
Inductive Call' :=
| ArgsSetUrl (url : option string)
| ArgsLocation (url : option string) (data flags : Dict)
| ArgsExploit (url : option string) (module description : string)
              (cve : option string) (data : Value)
| ArgsWarning (data : string)
| ArgsCertificate (url : option string) (certificate : string)
| ArgsBaseDir (baseDir : option string).

Inductive Event' :=
| Core (e : Event)
| HandlerCall' (m : Handler) (args : Call').

Definition M' (A : Type) : Type := State -> Res A * State * list Event'.

Definition ret' {A} (a : A) : M' A := fun st => (Ok a, st, []).

Definition bind' {A B} (m : M' A) (k : A -> M' B) : M' B :=
  fun st =>
    match m st with
    | (Ok a, st1, t1) =>
        match k a st1 with
        | (r, st2, t2) => (r, st2, t1 ++ t2)
        end
    | (Raise e, st1, t1) => (Raise e, st1, t1)
    | (Diverge, st1, t1) => (Diverge, st1, t1)
    end.

Definition emit' (e : Event') : M' unit := fun st => (Ok tt, st, [e]).

(** A computation of [M], with its events, inside [M']. *)
Definition lift {A} (m : M A) : M' A :=
  fun st => match m st with (r, st1, t1) => (r, st1, Core <$> t1) end.

Fixpoint for_each' {A} (l : list A) (body : A -> M' unit) : M' unit :=
  match l with
  | [] => ret' tt
  | x :: l' => bind' (body x) (fun _ => for_each' l' body)
  end.

Definition broadcast' (name : string) (args : Call') : M' unit :=
  bind' (lift (resolve_method name))
    (fun methods => for_each' methods (fun m => emit' (HandlerCall' m args))).

Definition set_url (url : option string) : M' unit :=
  broadcast' "set_url" (ArgsSetUrl url).

Definition log_location (url : option string) (data flags : Dict) : M' unit :=
  broadcast' "log_location" (ArgsLocation url data flags).

Definition exploit_message (module description : string) : string :=
  "[" +:+ module +:+ "] " +:+ description.

Definition log_exploit_event (url : option string) (module description : string)
    (cve : option string) (data : Value) (forward : bool) : M' unit :=
  bind'
    (if forward
     then lift (add_behavior_warn (Some (exploit_message module description))
                  cve "Dynamic Analysis")
     else ret' tt)
    (fun _ =>
       broadcast' "log_exploit_event"
         (ArgsExploit url module description cve data)).

Definition log_warning (data : string) : M' unit :=
  bind' (emit' (Core (LogWarning (Some data))))
    (fun _ => broadcast' "log_warning" (ArgsWarning data)).

Definition certificate_message (certificate : string) : string :=
  "[Certificate]" +:+ String "010"%char " " +:+ certificate.

Definition log_certificate (url : option string) (certificate : string)
  : M' unit :=
  bind'
    (lift (add_behavior_warn (Some (certificate_message certificate)) None
             "Dynamic Analysis"))
    (fun _ => broadcast' "log_certificate" (ArgsCertificate url certificate)).

Definition log_event : M' unit :=
  bind' (lift get_state)
    (fun st =>
       bind' (broadcast' "export" (ArgsBaseDir (baseDir st)))
         (fun _ =>
            bind' (broadcast' "log_event" (ArgsBaseDir (baseDir st)))
              (fun _ =>
                 if file_logging st
                 then emit' (Core (LogWarning
                         (Some ("Thug analysis logs saved at " +:+
                                str_opt (baseDir st)))))
                 else ret' tt))).

(** ** Construction *)

(** [d[key] = value] on a dictionary kept in the order of insertion: a key
    that is there keeps its place. *)
Fixpoint dict_setitem (key : string) (value : Module)
    (d : list (string * Module)) : list (string * Module) :=
  match d with
  | [] => [(key, value)]
  | kv :: d' =>
      if decide (fst kv = key) then (key, value) :: d'
      else kv :: dict_setitem key value d'
  end.

Section Init.

(** [LoggingModules.items()]: each name with its class, which is called
    with the version; [check_module(name, config)] of [BaseLogging] on the
    configuration read from [logging.conf]; [str.strip]. None of them is
    part of this file. [formats_of m] is [getattr(m, 'formats', tuple())]. *)
Variable LoggingModules : list (string * (string -> Module)).
Variable check_module : string -> bool.
Variable strip : string -> string.
Variable formats_of : Module -> list string.

(** [__init_config]: it answers [self.modules] and [self.formats]. *)
Definition __init_config (thug_version : string)
  : list (string * Module) * gset string :=
  let modules :=
    fold_left
      (fun modules nm =>
         if check_module (fst nm)
         then dict_setitem (strip (fst nm)) (snd nm thug_version) modules
         else modules)
      LoggingModules [] in
  let formats :=
    fold_left
      (fun formats km =>
         fold_left (fun formats format => {[format]} ∪ formats)
           (formats_of (snd km)) formats)
      modules ∅ in
  (modules, formats).

(** [__init__], in the surroundings [env]: the registry is built, the cache
    is empty and there is no output directory yet. *)
Definition __init__ (thug_version : string) (env : State) : State :=
  mkState (fst (__init_config thug_version)) ∅ None
    (file_logging env) (heap env) (fs env).

End Init.

(** ** Invariants *)

(** [hoare I Q R m]: started in a state that satisfies [I], [m] ends in one
    that does, makes only calls that satisfy [Q] and raises only exceptions
    that satisfy [R]. *)
Definition hoare (I : State -> Prop) (Q : Event -> Prop) (R : Exn -> Prop)
    {A} (m : M A) : Prop :=
  ∀ st r st' t, I st -> m st = (r, st', t) ->
    I st' ∧ Forall Q t ∧ ∀ e, r = Raise e -> R e.

(** The cache holds nothing but scans of the modules [ms]. *)
Definition cache_sound (ms : list (string * Module)) (st : State) : Prop :=
  modules st = ms ∧
  ∀ name l, methods_cache st !! name = Some l -> l = scan_modules ms name.

(** The event an argument list belongs to. *)
Definition event_name (args : Call) (name : string) : Prop :=
  match args with
  | ArgsBehaviorWarn _ _ _ => name = "add_behavior_warn"
  | ArgsCodeSnippet _ _ _ _ => name = "add_code_snippet"
  | ArgsLogFile _ _ _ => name = "log_file"
  | ArgsConnection _ _ _ _ => name = "log_connection"
  | ArgsAnalysis _ _ => ∃ module, name = "log_" +:+ module
  end.

(** A call to a backend goes to an operation that a module of [ms] exposes,
    and that operation carries the name of the event. *)
Definition registered_call (ms : list (string * Module)) (e : Event) : Prop :=
  match e with
  | HandlerCall m args =>
      (∃ km, km ∈ ms ∧ im_self m = mod_name (snd km) ∧
             im_func m ∈ mod_ops (snd km)) ∧
      event_name args (im_func m)
  | _ => True
  end.

(** The exceptions each operation can end with. *)
Definition may_raise (op : Op) (e : Exn) : Prop :=
  match op with
  | OpLogFile _ _ _ => e = KeyError "type" ∨ e = KeyError "md5"
  | OpStoreContent _ _ _ => ∃ n, e = OSError n ∨ e = IOError n
  | OpLogAnalysisModule _ _ _ _ _ =>
      e = KeyError "md5" ∨ ∃ n, e = OSError n ∨ e = IOError n
  | OpLogAndroguard _ _ _ =>
      e = KeyError "type" ∨ e = KeyError "md5" ∨
      ∃ n, e = OSError n ∨ e = IOError n
  | _ => False
  end.

(** What a session can do to the dictionaries that were there: keep them or
    take their "raw" entry out. *)
Definition heap_evolved (h0 h : gmap loc Dict) : Prop :=
  ∀ l d, h0 !! l = Some d ->
    h !! l = Some d ∨ h !! l = Some (delete "raw" d).

(** The calls of [__log_file] up to the one to the scan service. *)
Definition log_file_head (sample : loc) (d : Dict) (data : Value)
    (url params : option string) (st : State) : list Event :=
  ((fun m => HandlerCall m (ArgsLogFile d url params)) <$> resolved "log_file" st)
  ++ [VirusTotalAnalyze data sample (baseDir st)].

(** A call to a backend goes to the instance of a class that the
    configuration enables. *)
Definition enabled_call (LoggingModules : list (string * (string -> Module)))
    (check_module : string -> bool) (thug_version : string) (e : Event) : Prop :=
  match e with
  | HandlerCall m _ =>
      ∃ name cls, (name, cls) ∈ LoggingModules ∧ check_module name = true ∧
                  im_self m = mod_name (cls thug_version)
  | _ => True
  end.

(** ** Every operation *)

(** The event an argument list of the second kind belongs to. *)
Definition event_name' (args : Call') (name : string) : Prop :=
  match args with
  | ArgsSetUrl _ => name = "set_url"
  | ArgsLocation _ _ _ => name = "log_location"
  | ArgsExploit _ _ _ _ _ => name = "log_exploit_event"
  | ArgsWarning _ => name = "log_warning"
  | ArgsCertificate _ _ => name = "log_certificate"
  | ArgsBaseDir _ => name = "export" ∨ name = "log_event"
  end.

(** [registered_call] for the traces of all operations. *)
Definition registered_call' (ms : list (string * Module)) (e : Event') : Prop :=
  match e with
  | Core e => registered_call ms e
  | HandlerCall' m args =>
      (∃ km, km ∈ ms ∧ im_self m = mod_name (snd km) ∧
             im_func m ∈ mod_ops (snd km)) ∧
      event_name' args (im_func m)
  end.

(** [enabled_call] for the traces of all operations. *)
Definition enabled_call' (LoggingModules : list (string * (string -> Module)))
    (check_module : string -> bool) (thug_version : string) (e : Event') : Prop :=
  match e with
  | Core e => enabled_call LoggingModules check_module thug_version e
  | HandlerCall' m _ =>
      ∃ name cls, (name, cls) ∈ LoggingModules ∧ check_module name = true ∧
                  im_self m = mod_name (cls thug_version)
  end.

(** [hoare' I Q m]: started in a state that satisfies [I], [m] ends in one
    that does and makes only calls that satisfy [Q]. *)
Definition hoare' (I : State -> Prop) (Q : Event' -> Prop) {A} (m : M' A)
  : Prop :=
  ∀ st r st' t, I st -> m st = (r, st', t) -> I st' ∧ Forall Q t.

(** All the methods of the class that act on the facade: the operations of
    [Op], the internal [__log_file], and the ones modelled after [Op]. *)
Inductive Op' :=
| OpCore (op : Op)
| OpLogFileInternal (sample : loc) (data : Value) (url params : option string)
| OpSetUrl (url : option string)
| OpLogLocation (url : option string) (data flags : Dict)
| OpLogExploitEvent (url : option string) (module description : string)
                    (cve : option string) (data : Value) (forward : bool)
| OpLogWarning (data : string)
| OpLogCertificate (url : option string) (certificate : string)
| OpLogEvent
| OpLogHrefRedirect (referer url : option string)
| OpLogVirustotal (dirname : string) (sample : loc) (report : string)
| OpLogHoneyagent (dirname : string) (sample : loc) (report : string)
| OpLogPeepdf (dirname : string) (sample : loc) (report : string).

Definition run_op' (build_sample : Value -> option string -> option Dict)
    (op : Op') : M' unit :=
  match op with
  | OpCore op => lift (run_op build_sample op)
  | OpLogFileInternal sample data url params =>
      lift (__log_file sample data url params ;; ret tt)
  | OpSetUrl url => set_url url
  | OpLogLocation url data flags => log_location url data flags
  | OpLogExploitEvent url module description cve data forward =>
      log_exploit_event url module description cve data forward
  | OpLogWarning data => log_warning data
  | OpLogCertificate url certificate => log_certificate url certificate
  | OpLogEvent => log_event
  | OpLogHrefRedirect referer url => lift (log_href_redirect referer url)
  | OpLogVirustotal d s r => lift (log_virustotal d s r)
  | OpLogHoneyagent d s r => lift (log_honeyagent d s r)
  | OpLogPeepdf d s r => lift (log_peepdf d s r)
  end.

(** [session' bs st0 st]: [st] is reached from [st0] by any number of
    operations of [Op'], whatever their outcome. *)
Inductive session' (build_sample : Value -> option string -> option Dict)
    (st0 : State) : State -> Prop :=
| session'_start : session' build_sample st0 st0
| session'_step st op r st' t :
    session' build_sample st0 st ->
    run_op' build_sample op st = (r, st', t) ->
    session' build_sample st0 st'.

(** ** More sample data *)

Module More.

(** A sample of type JAR, held at location 0. *)
Definition jar : Dict :=
  {["type" := VStr "JAR"; "md5" := VStr "92eb5ffee6ae2fec3ad71c777531578f"]}.

(** A sample without type. *)
Definition untyped : Dict :=
  {["md5" := VStr "4a8a08f09d37b73795649038408b5f33"; "raw" := VStr "PK"]}.

(** A sample without checksum. *)
Definition unhashed : Dict := {["type" := VStr "PDF"]}.

Definition st_jar : State := set_heap {[0%nat := jar]} Sample.st0.
Definition st_untyped : State := set_heap {[0%nat := untyped]} Sample.st0.
Definition st_unhashed : State := set_heap {[0%nat := unhashed]} Sample.st0.

(** The builder answers the JAR sample for any data. *)
Definition build_jar (data : Value) (url : option string) : option Dict :=
  Some jar.

Definition build_untyped (data : Value) (url : option string) : option Dict :=
  Some untyped.

(** The configured backends: "text" is switched off, and the name of
    "json" comes with blanks around it. *)
Definition classes : list (string * (string -> Module)) :=
  [(" json ", fun _ => Sample.json); ("text", fun _ => Sample.text);
   ("mongo", fun _ => Sample.mongo)].

Definition enabled (name : string) : bool := negb (String.eqb name "text").

(** A [strip] for the names above. *)
Definition strip (name : string) : string :=
  if String.eqb name " json " then "json" else name.

Definition no_formats (m : Module) : list string := [].

(** A → B → C, ending at C with a response that is false (an error
    status, for a response whose truth value is its success). *)
Definition chain_false :=
  mkResponse false (Some "http://c/") [Sample.hopA; Sample.hopB].

(** A backend for the events with arguments of their own. *)
Definition maec := mkModule "maec"
  {["log_exploit_event"; "set_url"; "export"; "log_event"]}.

Definition st_maec : State :=
  mkState [("json", Sample.json); ("maec", maec)] ∅ (Some "/logs") true ∅
    Sample.empty_fs.

Definition classes_maec : list (string * (string -> Module)) :=
  [(" json ", fun _ => Sample.json); ("text", fun _ => Sample.text);
   ("maec", fun _ => maec)].

End More.

(** * Properties *)

Lemma resolve_method_run name st :
  resolve_method name st = (Ok (resolved name st), remember name st, []).
Proof.
  unfold resolve_method, resolved, remember, bind, get_state, put_state, ret.
  destruct (methods_cache st !! name); reflexivity.
Qed.
(** ** Running the monad *)

Lemma for_each_emit {A} (l : list A) (f : A -> Event) st :
  for_each l (fun x => emit (f x)) st = (Ok tt, st, f <$> l).
Proof.
  induction l as [|x l IH]; simpl; [reflexivity|].
  unfold bind at 1. simpl. rewrite IH. reflexivity.
Qed.

Lemma broadcast_run name args st :
  broadcast name args st =
  (Ok tt, remember name st, (fun m => HandlerCall m args) <$> resolved name st).
Proof.
  unfold broadcast, bind. rewrite resolve_method_run, for_each_emit.
  reflexivity.
Qed.

(** ** The cache *)

Lemma remember_cached name st :
  is_Some (methods_cache st !! name) -> remember name st = st.
Proof. intros [l Hl]. unfold remember. rewrite Hl. reflexivity. Qed.

Lemma remember_caches name st :
  methods_cache (remember name st) !! name = Some (resolved name st).
Proof.
  unfold remember, resolved.
  destruct (methods_cache st !! name) eqn:E; [exact E|].
  simpl. apply lookup_insert_eq.
Qed.

Lemma remember_modules name st : modules (remember name st) = modules st.
Proof. unfold remember. destruct (methods_cache st !! name); reflexivity. Qed.

Lemma remember_keeps name name' st l :
  methods_cache st !! name' = Some l ->
  methods_cache (remember name st) !! name' = Some l.
Proof.
  intros Hl. unfold remember.
  destruct (methods_cache st !! name) eqn:E; [exact Hl|].
  simpl. rewrite lookup_insert_ne; [exact Hl|]. congruence.
Qed.

Lemma resolved_remember name name' st :
  resolved name' (remember name st) = resolved name' st.
Proof.
  unfold resolved at 1.
  destruct (methods_cache st !! name') as [l|] eqn:E.
  - rewrite (remember_keeps _ _ _ _ E). unfold resolved. rewrite E. reflexivity.
  - destruct (decide (name = name')) as [->|Hne].
    + rewrite remember_caches. reflexivity.
    + rewrite remember_modules. unfold remember.
      destruct (methods_cache st !! name) eqn:E'.
      * rewrite E. unfold resolved. rewrite E. reflexivity.
      * simpl. rewrite lookup_insert_ne by exact Hne. rewrite E.
        unfold resolved. rewrite E. reflexivity.
Qed.

Lemma remember_idem name st : remember name (remember name st) = remember name st.
Proof. apply remember_cached. rewrite remember_caches. eauto. Qed.

Lemma remember_grows name st : cache_grows st (remember name st).
Proof.
  split; [apply remember_modules|]. intros n. unfold remember.
  destruct (methods_cache st !! name) eqn:E; [left; reflexivity|].
  simpl. destruct (decide (name = n)) as [<-|Hne].
  - right. rewrite lookup_insert_eq. auto.
  - left. apply lookup_insert_ne. exact Hne.
Qed.

Lemma cache_grows_refl st : cache_grows st st.
Proof. split; [reflexivity|]. intros n. left. reflexivity. Qed.

Lemma cache_grows_trans a b c :
  cache_grows a b -> cache_grows b c -> cache_grows a c.
Proof.
  intros [Hm1 H1] [Hm2 H2]. split; [congruence|]. intros n.
  destruct (H1 n) as [E1|[E1 E1']], (H2 n) as [E2|[E2 E2']].
  - left. congruence.
  - right. split; congruence.
  - right. split; congruence.
  - congruence.
Qed.

(** The scan is the list of implementers. *)
Lemma scan_modules_implementers ms name :
  scan_modules ms name = implementers name ms.
Proof.
  unfold scan_modules, implementers.
  enough (H : ∀ acc,
    fold_left
      (fun methods km =>
         match getattr (snd km) name with
         | Some m => methods ++ [m]
         | None => methods
         end) ms acc =
    acc ++ ((fun km => Bound (mod_name (snd km)) name)
              <$> filter (fun km => name ∈ mod_ops (snd km)) ms))
    by apply (H []).
  induction ms as [|km ms IH]; intros acc; simpl.
  - rewrite app_nil_r. reflexivity.
  - rewrite IH. unfold getattr. rewrite filter_cons.
    destruct (decide (name ∈ mod_ops km.2)); simpl.
    + rewrite <- app_assoc. reflexivity.
    + reflexivity.
Qed.

(** ** Frame lemmas *)

Section Within.

Variable P : State -> State -> Prop.
Variable Q : Event -> Prop.
Hypothesis P_refl : ∀ st, P st st.
Hypothesis P_trans : ∀ a b c, P a b -> P b c -> P a c.
Hypothesis P_remember : ∀ name st, P st (remember name st).
Hypothesis P_set_fs : ∀ f st, P st (set_fs f st).
Hypothesis P_set_heap : ∀ h st, P st (set_heap h st).
Hypothesis Q_call : ∀ e, is_build_sample e = false -> Q e.
Hypothesis Q_build : ∀ data url, Q (BuildSample data url).

Lemma within_ret {A} (a : A) : within P Q (ret a).
Proof. intros st r st' t [= <- <- <-]. auto. Qed.

Lemma within_raise {A} e : within P Q (@raise A e).
Proof. intros st r st' t [= <- <- <-]. auto. Qed.

Lemma within_diverge {A} : within P Q (@diverge A).
Proof. intros st r st' t [= <- <- <-]. auto. Qed.

Lemma within_get_state : within P Q get_state.
Proof. intros st r st' t [= <- <- <-]. auto. Qed.

Lemma within_emit e : Q e -> within P Q (emit e).
Proof. intros He st r st' t [= <- <- <-]. auto. Qed.

Lemma within_bind {A B} (m : M A) (k : A -> M B) :
  within P Q m -> (∀ a, within P Q (k a)) -> within P Q (bind m k).
Proof.
  intros Hm Hk st r st' t. unfold bind.
  destruct (m st) as [[ra st1] t1] eqn:Em.
  destruct (Hm _ _ _ _ Em) as [HP1 HQ1].
  destruct ra as [a|e|].
  - destruct (k a st1) as [[rb st2] t2] eqn:Ek.
    destruct (Hk a _ _ _ _ Ek) as [HP2 HQ2].
    intros [= <- <- <-]. split; [eauto|]. apply Forall_app; auto.
  - intros [= <- <- <-]. auto.
  - intros [= <- <- <-]. auto.
Qed.

Lemma within_try_except {A} (m : M A) (handler : Exn -> M A) :
  within P Q m -> (∀ e, within P Q (handler e)) ->
  within P Q (try_except m handler).
Proof.
  intros Hm Hh st r st' t. unfold try_except.
  destruct (m st) as [[ra st1] t1] eqn:Em.
  destruct (Hm _ _ _ _ Em) as [HP1 HQ1].
  destruct ra as [a|e|].
  - intros [= <- <- <-]. auto.
  - destruct (handler e st1) as [[rb st2] t2] eqn:Eh.
    destruct (Hh e _ _ _ _ Eh) as [HP2 HQ2].
    intros [= <- <- <-]. split; [eauto|]. apply Forall_app; auto.
  - intros [= <- <- <-]. auto.
Qed.

Lemma within_for_each {A} (l : list A) (body : A -> M unit) :
  (∀ x, within P Q (body x)) -> within P Q (for_each l body).
Proof.
  intros Hb. induction l as [|x l IH]; simpl.
  - apply within_ret.
  - apply within_bind; auto.
Qed.

Lemma within_resolve_method name : within P Q (resolve_method name).
Proof.
  intros st r st' t. rewrite resolve_method_run. intros [= <- <- <-]. auto.
Qed.

Lemma within_broadcast name args : within P Q (broadcast name args).
Proof.
  intros st r st' t. rewrite broadcast_run. intros [= <- <- <-].
  split; [auto|]. apply Forall_fmap, Forall_forall. intros m _. simpl.
  apply Q_call. reflexivity.
Qed.

Lemma within_deref sample : within P Q (deref sample).
Proof. intros st r st' t [= <- <- <-]. auto. Qed.

Lemma within_dict_getitem sample key : within P Q (dict_getitem sample key).
Proof.
  unfold dict_getitem. apply within_bind; [apply within_deref|].
  intros d. destruct (d !! key); [apply within_ret | apply within_raise].
Qed.

Lemma within_dict_pop sample key dflt : within P Q (dict_pop sample key dflt).
Proof.
  intros st r st' t. unfold dict_pop, bind, deref, get_state, put_state, ret.
  simpl. destruct (default ∅ (heap st !! sample) !! key);
    intros [= <- <- <-]; auto.
Qed.

Lemma within_alloc d : within P Q (alloc d).
Proof. intros st r st' t [= <- <- <-]. auto. Qed.

Lemma within_os_makedirs dirname : within P Q (os_makedirs dirname).
Proof.
  intros st r st' t. unfold os_makedirs, bind, get_state, put_state, raise.
  destruct (makedirs_fs dirname (fs st)); intros [= <- <- <-]; auto.
Qed.

Lemma within_open_wb_write fname content :
  within P Q (open_wb_write fname content).
Proof.
  intros st r st' t. unfold open_wb_write, bind, get_state, put_state, raise.
  destruct (write_fs fname content (fs st)); intros [= <- <- <-]; auto.
Qed.

Ltac within_step :=
  first
    [ apply within_ret | apply within_raise | apply within_diverge
    | apply within_get_state | apply within_resolve_method
    | apply within_broadcast | apply within_deref
    | apply within_dict_getitem | apply within_dict_pop
    | apply within_alloc | apply within_os_makedirs
    | apply within_open_wb_write
    | apply within_emit; apply Q_call; reflexivity
    | apply within_bind; [|intros ?]
    | apply within_for_each; intros ?
    | apply within_try_except; [|intros ?] ].

Lemma within_add_behavior_warn d c m : within P Q (add_behavior_warn d c m).
Proof. unfold add_behavior_warn. repeat within_step. Qed.

Lemma within_log_connection s d m f : within P Q (log_connection s d m f).
Proof. unfold log_connection. repeat within_step. Qed.

Lemma within_add_code_snippet s l r m c :
  within P Q (add_code_snippet s l r m c).
Proof.
  unfold add_code_snippet.
  destruct (c && check_snippet s); repeat within_step.
Qed.

Lemma within___log_file sample data url params :
  within P Q (__log_file sample data url params).
Proof.
  unfold __log_file. repeat within_step.
  destruct (decide (_ = _)); repeat within_step.
Qed.

Lemma within_log_file bs data url params :
  within P Q (log_file bs data url params).
Proof.
  unfold log_file. apply within_bind; [apply within_emit, Q_build|].
  intros _. destruct (bs data url); [|apply within_ret].
  apply within_bind; [apply within_alloc|]. intros sample.
  apply within_bind; [apply within___log_file|]. intros r.
  apply within_ret.
Qed.

Lemma within_log_hop h : within P Q (log_hop h).
Proof.
  unfold log_hop.
  apply within_bind; [apply within_add_behavior_warn|]. intros _.
  apply within_bind; [apply within_log_connection|]. intros _.
  repeat within_step.
Qed.

Lemma within_log_redirect fuel response : within P Q (log_redirect fuel response).
Proof.
  unfold log_redirect. destruct response as [r|]; [|apply within_ret].
  destruct (negb (resp_true r)); [apply within_ret|].
  destruct (resp_history r) as [|h hs].
  - destruct (truthy_url (resp_url r)); repeat within_step.
  - destruct (while_final_is_None _ _ _); [|apply within_diverge].
    apply within_bind; [apply within_for_each, within_log_hop|]. intros _.
    repeat within_step.
Qed.

Lemma within_store_content d f c : within P Q (store_content d f c).
Proof.
  unfold store_content. apply within_bind; [apply within_get_state|].
  intros st. destruct (negb (file_logging st)); [apply within_ret|].
  repeat within_step.
  destruct e as [k|errno|errno]; try apply within_raise.
  destruct (decide (errno = EEXIST)); [apply within_ret | apply within_raise].
Qed.

Lemma within_log_analysis_module d s r m f :
  within P Q (log_analysis_module d s r m f).
Proof.
  unfold log_analysis_module.
  apply within_bind; [apply within_dict_getitem|]. intros md5.
  apply within_bind; [apply within_store_content|]. intros _.
  apply within_broadcast.
Qed.

Lemma within_log_androguard d s r : within P Q (log_androguard d s r).
Proof.
  unfold log_androguard.
  apply within_bind; [apply within_dict_pop|]. intros raw.
  apply within_bind; [apply within___log_file|]. intros _.
  apply within_log_analysis_module.
Qed.

Lemma within_run_op bs op : within P Q (run_op bs op).
Proof.
  destruct op; simpl.
  - apply within_bind; [apply within_resolve_method | intros; apply within_ret].
  - apply within_add_behavior_warn.
  - apply within_add_code_snippet.
  - apply within_bind; [apply within_log_file | intros; apply within_ret].
  - apply within_log_connection.
  - apply within_bind; [apply within_log_redirect | intros; apply within_ret].
  - apply within_bind; [apply within_store_content | intros; apply within_ret].
  - apply within_log_analysis_module.
  - apply within_log_androguard.
Qed.

End Within.

(** ** The cache during a session *)

Lemma cache_grows_set_fs f st : cache_grows st (set_fs f st).
Proof. split; [reflexivity|]. intros n. left. reflexivity. Qed.

Lemma cache_grows_set_heap h st : cache_grows st (set_heap h st).
Proof. split; [reflexivity|]. intros n. left. reflexivity. Qed.

Lemma run_op_cache_grows bs op st r st' t :
  run_op bs op st = (r, st', t) -> cache_grows st st'.
Proof.
  intros H.
  eapply (within_run_op cache_grows (fun _ => True)); eauto using
    cache_grows_refl, cache_grows_trans, remember_grows,
    cache_grows_set_fs, cache_grows_set_heap.
Qed.

Lemma session_cache_grows bs st0 st :
  session bs st0 st -> cache_grows st0 st.
Proof.
  induction 1 as [|st op r st' t _ IH Hrun].
  - apply cache_grows_refl.
  - eapply cache_grows_trans; [exact IH|]. eapply run_op_cache_grows, Hrun.
Qed.

Lemma session_trans bs st0 st1 st2 :
  session bs st0 st1 -> session bs st1 st2 -> session bs st0 st2.
Proof.
  intros H01 H12. induction H12 as [|st op r st' t _ IH Hrun]; [exact H01|].
  eapply session_step; [exact IH | exact Hrun].
Qed.

(** In a session that started with an empty cache, [resolve_method]
    answers the implementers of the name. *)
Lemma session_resolved bs st0 st name :
  methods_cache st0 = ∅ -> session bs st0 st ->
  resolved name st = implementers name (modules st0).
Proof.
  intros Hempty Hs. destruct (session_cache_grows _ _ _ Hs) as [Hm Hc].
  unfold resolved. rewrite <- scan_modules_implementers.
  destruct (Hc name) as [E|[_ E]]; rewrite E.
  - rewrite Hempty, lookup_empty, Hm. reflexivity.
  - reflexivity.
Qed.

Lemma resolve_method_cached name methods ms st :
  methods_cache st !! name = Some methods ->
  resolve_method name (set_modules ms st) = (Ok methods, set_modules ms st, []).
Proof.
  intros H. rewrite resolve_method_run. unfold resolved, remember. simpl.
  rewrite H. reflexivity.
Qed.

Lemma set_modules_same st : set_modules (modules st) st = st.
Proof. destruct st; reflexivity. Qed.

(** C2. In a session that starts with an empty cache, [resolve_method name]
    answers, at any moment, the bound operations of the registered modules
    that implement [name], in the order of registration; after that call
    the list is in the cache, and every later call in the session answers
    that same list from the cache and leaves the state as it is: the
    answer does not depend on the modules any more, so they are not
    scanned again. *)
Theorem resolve_method_memoized bs st0 st name :
  methods_cache st0 = ∅ ->
  session bs st0 st ->
  ∃ st1,
    resolve_method name st = (Ok (implementers name (modules st0)), st1, []) ∧
    methods_cache st1 !! name = Some (implementers name (modules st0)) ∧
    ∀ st2, session bs st1 st2 ->
      resolve_method name st2 = (Ok (implementers name (modules st0)), st2, []) ∧
      ∀ ms, resolve_method name (set_modules ms st2)
            = (Ok (implementers name (modules st0)), set_modules ms st2, []).
Proof.
  intros Hempty Hs. exists (remember name st).
  rewrite resolve_method_run, (session_resolved _ _ _ _ Hempty Hs).
  split; [reflexivity|].
  assert (Hc : methods_cache (remember name st) !! name
               = Some (implementers name (modules st0))).
  { rewrite remember_caches. f_equal. eapply session_resolved; eauto. }
  split; [exact Hc|]. intros st2 Hs2.
  assert (Hc2 : methods_cache st2 !! name = Some (implementers name (modules st0))).
  { destruct (session_cache_grows _ _ _ Hs2) as [_ Hg].
    destruct (Hg name) as [E|[E _]]; congruence. }
  split.
  - pose proof (resolve_method_cached name _ (modules st2) st2 Hc2) as H.
    rewrite set_modules_same in H. exact H.
  - intros ms. apply resolve_method_cached, Hc2.
Qed.

Lemma resolve_method_memoized_witness :
  methods_cache Sample.st0 = ∅ ∧
  session (fun _ _ => None) Sample.st0 Sample.st0 ∧
  ∃ st1,
    resolve_method "log_connection" Sample.st0
    = (Ok [Bound "json" "log_connection"; Bound "text" "log_connection"],
       st1, []).
Proof.
  split; [reflexivity|]. split; [apply session_start|].
  destruct (resolve_method_memoized (fun _ _ => None) Sample.st0 Sample.st0
              "log_connection" eq_refl (session_start _ _)) as (st1 & H & _).
  exists st1. exact H.
Defined.

(** ** The redirect chain *)

Lemma for_reversed_history_cons h l final :
  for_reversed_history (h :: l) final = hop_url h.
Proof.
  unfold for_reversed_history. simpl. rewrite fold_left_app. reflexivity.
Qed.

(** When the oldest hop has no URL, no amount of fuel ends the scan. *)
Lemma while_oldest_None fuel h l :
  hop_url h = None -> while_final_is_None fuel (h :: l) None = None.
Proof.
  intros Hh. induction fuel as [|fuel IH]; simpl; [reflexivity|].
  rewrite for_reversed_history_cons, Hh. exact IH.
Qed.

(** When the oldest hop has a URL, one run of the body ends the scan, with
    that URL. *)
Lemma while_oldest_Some fuel h l u :
  hop_url h = Some u ->
  while_final_is_None (S fuel) (h :: l) None = Some (Some u).
Proof.
  intros Hh. simpl. rewrite for_reversed_history_cons, Hh.
  destruct fuel; reflexivity.
Qed.

Lemma while_final_known fuel history u :
  while_final_is_None fuel history (Some u) = Some (Some u).
Proof. destruct fuel; reflexivity. Qed.

Lemma log_hop_run h st :
  log_hop h st =
  (Ok tt, redirect_state st,
   hop_events (resolved "add_behavior_warn" st) (resolved "log_connection" st) h).
Proof.
  unfold log_hop, add_behavior_warn, log_connection, bind.
  rewrite !broadcast_run. simpl. rewrite broadcast_run. simpl.
  rewrite resolved_remember. unfold redirect_state, hop_events.
  rewrite <- !app_assoc. reflexivity.
Qed.

Lemma redirect_state_idem st : redirect_state (redirect_state st) = redirect_state st.
Proof.
  unfold redirect_state.
  rewrite (remember_cached "add_behavior_warn").
  - apply remember_idem.
  - eexists. apply remember_keeps, remember_caches.
Qed.

Lemma resolved_redirect_state name st :
  resolved name (redirect_state st) = resolved name st.
Proof. unfold redirect_state. rewrite !resolved_remember. reflexivity. Qed.

Lemma for_each_log_hop_settled l st :
  redirect_state st = st ->
  for_each l log_hop st =
  (Ok tt, st,
   flat_map (hop_events (resolved "add_behavior_warn" st)
               (resolved "log_connection" st)) l).
Proof.
  intros Hst. induction l as [|h l IH]; simpl; [reflexivity|].
  unfold bind. rewrite log_hop_run, Hst, IH. reflexivity.
Qed.

Lemma for_each_log_hop_run h l st :
  for_each (h :: l) log_hop st =
  (Ok tt, redirect_state st,
   flat_map (hop_events (resolved "add_behavior_warn" st)
               (resolved "log_connection" st)) (h :: l)).
Proof.
  simpl. unfold bind. rewrite log_hop_run.
  rewrite (for_each_log_hop_settled l _ (redirect_state_idem st)).
  rewrite !resolved_redirect_state. reflexivity.
Qed.

(** The run of [log_redirect] once the scan has ended with [final]. *)
Lemma log_redirect_run fuel r h l final st :
  resp_true r = true ->
  resp_history r = h :: l ->
  while_final_is_None fuel (h :: l) (resp_url r) = Some final ->
  log_redirect fuel (Some r) st =
  (Ok final, redirect_state st,
   flat_map (hop_events (resolved "add_behavior_warn" st)
               (resolved "log_connection" st)) (h :: l)
   ++ check_pairs [final]).
Proof.
  intros Ht Hh Hw. unfold log_redirect. rewrite Ht, Hh, Hw.
  change (negb true) with false. cbv beta match.
  unfold bind at 1. rewrite for_each_log_hop_run. reflexivity.
Qed.

(** ** Reading a trace *)

Lemma omap_fmap_none {A B C} (f : B -> option C) (g : A -> B) (l : list A) :
  (∀ x, f (g x) = None) -> omap f (g <$> l) = [].
Proof.
  intros H. induction l as [|x l IH]; simpl; [reflexivity|].
  rewrite H. exact IH.
Qed.

Lemma omap_fmap_some {A B C} (f : B -> option C) (g : A -> B) (k : A -> C)
    (l : list A) :
  (∀ x, f (g x) = Some (k x)) -> omap f (g <$> l) = k <$> l.
Proof.
  intros H. induction l as [|x l IH]; simpl; [reflexivity|].
  rewrite H. simpl. f_equal. exact IH.
Qed.

Lemma url_checks_app t1 t2 : url_checks (t1 ++ t2) = url_checks t1 ++ url_checks t2.
Proof. apply filter_app. Qed.

Lemma url_checks_handler_calls (f : Handler -> Call) (l : list Handler) :
  url_checks ((fun m => HandlerCall m (f m)) <$> l) = [].
Proof.
  induction l as [|m l IH]; [reflexivity|].
  simpl. unfold url_checks in *. rewrite filter_cons_False; [exact IH|].
  simpl. discriminate.
Qed.

Lemma check_pairs_app l1 l2 : check_pairs (l1 ++ l2) = check_pairs l1 ++ check_pairs l2.
Proof. apply flat_map_app. Qed.

Lemma length_check_pairs l : length (check_pairs l) = 2 * length l.
Proof. induction l as [|u l IH]; simpl; [reflexivity|]. rewrite IH. lia. Qed.

Lemma url_checks_check_pairs l : url_checks (check_pairs l) = check_pairs l.
Proof.
  induction l as [|u l IH]; [reflexivity|].
  simpl. unfold url_checks in *.
  rewrite filter_cons_True by reflexivity.
  rewrite filter_cons_True by reflexivity.
  rewrite IH. reflexivity.
Qed.

Section HopEvents.

Variables ws cs : list Handler.

Lemma warnings_hop_events h :
  warnings (hop_events ws cs h) = [Some (redirect_message h)].
Proof.
  unfold warnings, hop_events. rewrite !omap_app.
  rewrite !omap_fmap_none by reflexivity. reflexivity.
Qed.

Lemma behavior_warn_calls_hop_events h :
  behavior_warn_calls (hop_events ws cs h)
  = (fun m => (m, Some (redirect_message h))) <$> ws.
Proof.
  unfold behavior_warn_calls, hop_events. rewrite !omap_app.
  rewrite (omap_fmap_none _ _ cs) by reflexivity.
  rewrite (omap_fmap_some _ _ (fun m => (m, Some (redirect_message h))))
    by reflexivity.
  simpl. rewrite app_nil_r. reflexivity.
Qed.

Lemma connection_edges_hop_events h :
  connection_edges (hop_events ws cs h)
  = (fun m => (m, hop_url h, hop_headers h !! "location", "http-redirect"))
      <$> cs.
Proof.
  unfold connection_edges, hop_events. rewrite !omap_app.
  rewrite (omap_fmap_none _ _ ws) by reflexivity.
  rewrite (omap_fmap_some _ _
             (fun m => (m, hop_url h, hop_headers h !! "location",
                        "http-redirect"))) by reflexivity.
  simpl. rewrite app_nil_r. reflexivity.
Qed.

Lemma url_checks_hop_events h :
  url_checks (hop_events ws cs h) = check_pairs [hop_url h].
Proof.
  unfold hop_events. rewrite !url_checks_app, !url_checks_handler_calls.
  reflexivity.
Qed.

Lemma warnings_hops l :
  warnings (flat_map (hop_events ws cs) l)
  = (fun h => Some (redirect_message h)) <$> l.
Proof.
  induction l as [|h l IH]; [reflexivity|].
  simpl. unfold warnings in *. rewrite omap_app, IH.
  fold (warnings (hop_events ws cs h)). rewrite warnings_hop_events.
  reflexivity.
Qed.

Lemma behavior_warn_calls_hops l :
  behavior_warn_calls (flat_map (hop_events ws cs) l)
  = flat_map (fun h => (fun m => (m, Some (redirect_message h))) <$> ws) l.
Proof.
  induction l as [|h l IH]; [reflexivity|].
  simpl. unfold behavior_warn_calls in *. rewrite omap_app, IH.
  fold (behavior_warn_calls (hop_events ws cs h)).
  rewrite behavior_warn_calls_hop_events. reflexivity.
Qed.

Lemma connection_edges_hops l :
  connection_edges (flat_map (hop_events ws cs) l)
  = flat_map
      (fun h => (fun m => (m, hop_url h, hop_headers h !! "location",
                           "http-redirect")) <$> cs) l.
Proof.
  induction l as [|h l IH]; [reflexivity|].
  simpl. unfold connection_edges in *. rewrite omap_app, IH.
  fold (connection_edges (hop_events ws cs h)).
  rewrite connection_edges_hop_events. reflexivity.
Qed.

Lemma url_checks_hops l :
  url_checks (flat_map (hop_events ws cs) l) = check_pairs (hop_url <$> l).
Proof.
  induction l as [|h l IH]; [reflexivity|].
  simpl flat_map. rewrite url_checks_app, IH, url_checks_hop_events.
  reflexivity.
Qed.

End HopEvents.

(** The chain of a true response with N >= 1 hops and a URL of its own: [log_redirect]
    returns that URL, whatever the fuel. Its calls are, for each hop from
    the oldest to the newest, the behavior warning to every
    [add_behavior_warn] handler and to the warning log, the edge from the
    hop URL to the hop's location, with method "http-redirect", to every
    [log_connection] handler, and the classification and certificate fetch
    of the hop URL; then the classification and certificate fetch of the
    final URL. So the warning log receives N warnings, every handler its
    N warnings or N edges, and there are N+1 classify-plus-fetch pairs. *)
Theorem log_redirect_chain fuel r st :
  resp_true r = true ->
  resp_history r ≠ [] ->
  truthy_url (resp_url r) = true ->
  let ws := resolved "add_behavior_warn" st in
  let cs := resolved "log_connection" st in
  let history := resp_history r in
  ∃ st' t,
    log_redirect fuel (Some r) st = (Ok (resp_url r), st', t) ∧
    t = flat_map (hop_events ws cs) history ++ check_pairs [resp_url r] ∧
    warnings t = (fun h => Some (redirect_message h)) <$> history ∧
    length (warnings t) = length history ∧
    behavior_warn_calls t
    = flat_map (fun h => (fun m => (m, Some (redirect_message h))) <$> ws)
        history ∧
    connection_edges t
    = flat_map
        (fun h => (fun m => (m, hop_url h, hop_headers h !! "location",
                             "http-redirect")) <$> cs) history ∧
    url_checks t = check_pairs ((hop_url <$> history) ++ [resp_url r]) ∧
    length (url_checks t) = 2 * (length history + 1).
Proof.
  intros Ht Hh Hu ws cs history.
  destruct (resp_history r) as [|h l] eqn:Eh; [congruence|].
  destruct (resp_url r) as [u|] eqn:Eu; [|discriminate].
  eexists _, _. split.
  { rewrite <- Eu. eapply log_redirect_run; eauto.
    rewrite Eu. apply while_final_known. }
  rewrite Eu. fold ws cs. subst history.
  assert (Hw : warnings (flat_map (hop_events ws cs) (h :: l) ++ check_pairs [Some u])
               = (fun h => Some (redirect_message h)) <$> (h :: l)).
  { unfold warnings. rewrite omap_app. fold (warnings (flat_map (hop_events ws cs) (h :: l))).
    rewrite warnings_hops. simpl. rewrite app_nil_r. reflexivity. }
  assert (Hc : url_checks (flat_map (hop_events ws cs) (h :: l) ++ check_pairs [Some u])
               = check_pairs ((hop_url <$> (h :: l)) ++ [Some u])).
  { rewrite url_checks_app, url_checks_hops, url_checks_check_pairs,
      check_pairs_app. reflexivity. }
  split; [reflexivity|]. split; [exact Hw|].
  split; [rewrite Hw, length_fmap; reflexivity|].
  split.
  { unfold behavior_warn_calls. rewrite omap_app.
    fold (behavior_warn_calls (flat_map (hop_events ws cs) (h :: l))).
    rewrite behavior_warn_calls_hops. simpl. rewrite app_nil_r. reflexivity. }
  split.
  { unfold connection_edges. rewrite omap_app.
    fold (connection_edges (flat_map (hop_events ws cs) (h :: l))).
    rewrite connection_edges_hops. simpl. rewrite app_nil_r. reflexivity. }
  split; [exact Hc|].
  rewrite Hc, length_check_pairs, length_app, length_fmap. simpl. lia.
Qed.

Lemma log_redirect_chain_witness :
  resp_true Sample.chain = true ∧
  resp_history Sample.chain ≠ [] ∧
  truthy_url (resp_url Sample.chain) = true ∧
  ∃ st' t,
    log_redirect 0 (Some Sample.chain) Sample.st0 = (Ok (Some "http://c/"), st', t) ∧
    length (warnings t) = 2%nat ∧
    length (url_checks t) = 6%nat.
Proof.
  split; [reflexivity|]. split; [discriminate|]. split; [reflexivity|].
  destruct (log_redirect_chain 0 Sample.chain Sample.st0)
    as (st' & t & Hrun & _ & _ & Hw & _ & _ & _ & Hc);
    [reflexivity | discriminate | reflexivity |].
  exists st', t. split; [exact Hrun|]. split; [exact Hw | exact Hc].
Defined.

(** When the response has no URL of its own and the oldest hop has none
    either, [log_redirect] does not return, whatever the fuel. *)
Lemma log_redirect_oldest_None fuel r h l st :
  resp_true r = true ->
  resp_url r = None ->
  resp_history r = h :: l ->
  hop_url h = None ->
  log_redirect fuel (Some r) st = (Diverge, st, []).
Proof.
  intros Ht Hu Hh Hn. unfold log_redirect.
  rewrite Ht, Hh, Hu, (while_oldest_None fuel h l Hn). reflexivity.
Qed.

(** When the response has no URL of its own and the oldest hop has one,
    that URL is the final URL. *)
Lemma log_redirect_oldest_Some fuel r h l u st :
  resp_true r = true ->
  resp_url r = None ->
  resp_history r = h :: l ->
  hop_url h = Some u ->
  ∃ t, log_redirect (S fuel) (Some r) st = (Ok (Some u), redirect_state st, t).
Proof.
  intros Ht Hu Hh Hs. eexists.
  eapply log_redirect_run; eauto.
  rewrite Hu. apply while_oldest_Some, Hs.
Qed.

(** C1. On a response without URL whose two hops have no URL either,
    [log_redirect] does not return: with any fuel the scan is still running
    when the fuel is spent, and nothing has been logged. *)
Theorem log_redirect_all_empty_diverges fuel st :
  log_redirect fuel (Some Sample.chain_all_empty) st = (Diverge, st, []).
Proof. apply (log_redirect_oldest_None fuel _ (mkHop None 301 ∅) [mkHop None 302 ∅]); reflexivity. Qed.

(** C4. On the hops A, B (oldest first) and a response without URL,
    [log_redirect] returns the URL of A, the oldest hop, while the most
    recent hop with a URL is B. *)
Theorem log_redirect_returns_oldest fuel st :
  (∃ st' t, log_redirect (S fuel) (Some Sample.chain_no_url) st
            = (Ok (Some "http://a/"), st', t)) ∧
  most_recent_url (resp_history Sample.chain_no_url) = Some "http://b/".
Proof.
  split; [|reflexivity].
  destruct (log_redirect_oldest_Some fuel Sample.chain_no_url Sample.hopA
              [Sample.hopB] "http://a/" st) as [t Ht]; try reflexivity.
  eauto.
Qed.

(** C5, as stated, fails: a response with no hop and no URL gets no
    classification and no certificate fetch. *)
Lemma log_redirect_no_url_counterexample :
  ¬ ∃ st' t,
      log_redirect 0 (Some Sample.direct_no_url) Sample.st0 = (Ok None, st', t) ∧
      url_checks t = check_pairs [resp_url Sample.direct_no_url].
Proof. intros (st' & t & [= <- <-] & Hc). discriminate Hc. Qed.

(** C5, amended. A response with zero hops: [log_redirect] returns nothing
    and leaves the state as it is; it makes one classify-plus-fetch pair,
    on the response's own URL, when the response is true and that URL is
    not empty, and no call otherwise. *)
Theorem log_redirect_no_history fuel r st :
  resp_history r = [] ->
  log_redirect fuel (Some r) st
  = (Ok None, st,
     if resp_true r && truthy_url (resp_url r)
     then check_pairs [resp_url r] else []).
Proof.
  intros Hh. unfold log_redirect. rewrite Hh.
  destruct (resp_true r), (truthy_url (resp_url r)); reflexivity.
Qed.

Lemma log_redirect_no_history_witness :
  resp_history Sample.direct = [] ∧
  log_redirect 0 (Some Sample.direct) Sample.st0
  = (Ok None, Sample.st0,
     [URLClassify (Some "http://a/"); FetchCertificate (Some "http://a/")]).
Proof. split; [reflexivity|]. apply (log_redirect_no_history 0 Sample.direct Sample.st0). reflexivity. Defined.

(** ** log_file and add_code_snippet *)

(** C6. When the sample builder produces no sample, [log_file] returns
    nothing and raises nothing; its only call is the one to the builder: no
    backend handler is called, nor the scan, dynamic-execution and
    classification collaborators, and the state is as before. *)
Theorem log_file_no_sample bs data url params st :
  bs data url = None ->
  ∃ t,
    log_file bs data url params st = (Ok None, st, t) ∧
    t = [BuildSample data url] ∧
    filter (fun e => is_handler_call e = true) t = [] ∧
    filter (fun e => is_analysis_call e = true) t = [].
Proof.
  intros Hb. eexists. split; [|split; [reflexivity|split; reflexivity]].
  unfold log_file, bind, emit. rewrite Hb. reflexivity.
Qed.

Lemma log_file_no_sample_witness :
  ∃ t, log_file (fun _ _ => None) (VStr "") None None Sample.st0
       = (Ok None, Sample.st0, t) ∧
       filter (fun e => is_handler_call e = true) t = [].
Proof.
  destruct (log_file_no_sample (fun _ _ => None) (VStr "") None None Sample.st0
              eq_refl) as (t & Hrun & _ & Hh & _).
  exists t. split; [exact Hrun | exact Hh].
Defined.

(** C7. With [check] set, a snippet shorter than 4 is dropped: no handler
    is called, not even resolved. With [check] unset, a snippet of any
    length goes to every handler [resolve_method] answers for
    "add_code_snippet", in that order. *)
Theorem add_code_snippet_check snippet language relationship method st :
  ((String.length snippet < 4)%nat ->
   add_code_snippet snippet language relationship method true st
   = (Ok tt, st, [])) ∧
  add_code_snippet snippet language relationship method false st
  = (Ok tt, remember "add_code_snippet" st,
     (fun m => HandlerCall m
                 (ArgsCodeSnippet snippet language relationship method))
       <$> resolved "add_code_snippet" st).
Proof.
  split.
  - intros Hlen. unfold add_code_snippet, check_snippet, eval_min_length_logging.
    simpl andb. destruct (Nat.ltb_spec (String.length snippet) 4); [reflexivity|lia].
  - unfold add_code_snippet. simpl andb. apply broadcast_run.
Qed.

Lemma add_code_snippet_check_witness :
  (String.length "x=1" < 4)%nat ∧
  add_code_snippet "x=1" "Javascript" "Contained_Inside" "Dynamic Analysis"
    true Sample.st0 = (Ok tt, Sample.st0, []).
Proof.
  split; [simpl; lia|].
  apply (proj1 (add_code_snippet_check "x=1" "Javascript" "Contained_Inside"
                  "Dynamic Analysis" Sample.st0)).
  simpl; lia.
Defined.

(** ** store_content *)

Lemma store_content_off d f c st :
  file_logging st = false -> store_content d f c st = (Ok None, st, []).
Proof. intros H. unfold store_content, bind, get_state. simpl. rewrite H. reflexivity. Qed.

Lemma bind_get_state {B} (k : State -> M B) st : bind get_state k st = k st st.
Proof. unfold bind, get_state. destruct (k st st) as [[r s] t]. reflexivity. Qed.

Lemma bind_run_ok {A B} (m : M A) (k : A -> M B) st a st1 :
  m st = (Ok a, st1, []) -> bind m k st = k a st1.
Proof.
  intros H. unfold bind. rewrite H. destruct (k a st1) as [[r s] t]. reflexivity.
Qed.

Lemma bind_run_raise {A B} (m : M A) (k : A -> M B) st e st1 t1 :
  m st = (Raise e, st1, t1) -> bind m k st = (Raise e, st1, t1).
Proof. intros H. unfold bind. rewrite H. reflexivity. Qed.

Lemma os_makedirs_run d st :
  os_makedirs d st =
  match makedirs_fs d (fs st) with
  | inl f1 => (Ok tt, set_fs f1 st, [])
  | inr e => (Raise (OSError e), st, [])
  end.
Proof.
  unfold os_makedirs. rewrite bind_get_state.
  destruct (makedirs_fs d (fs st)); reflexivity.
Qed.

Lemma open_wb_write_run p c st :
  open_wb_write p c st =
  match write_fs p c (fs st) with
  | inl f2 => (Ok tt, set_fs f2 st, [])
  | inr e => (Raise (IOError e), st, [])
  end.
Proof.
  unfold open_wb_write. rewrite bind_get_state.
  destruct (write_fs p c (fs st)); reflexivity.
Qed.

(** The second half of [store_content]: the file is written. *)
Lemma write_step_run p c st :
  (open_wb_write p c ;; ret (Some p)) st =
  match write_fs p c (fs st) with
  | inl f2 => (Ok (Some p), set_fs f2 st, [])
  | inr e => (Raise (IOError e), st, [])
  end.
Proof.
  unfold bind. rewrite open_wb_write_run.
  destruct (write_fs p c (fs st)); reflexivity.
Qed.

(** The cases of [store_content]. *)
Lemma store_content_run d f c st :
  store_content d f c st =
  if file_logging st then
    match makedirs_fs d (fs st) with
    | inl f1 =>
        (open_wb_write (os_path_join d f) c ;; ret (Some (os_path_join d f)))
          (set_fs f1 st)
    | inr e =>
        if decide (e = EEXIST)
        then (open_wb_write (os_path_join d f) c ;; ret (Some (os_path_join d f))) st
        else (Raise (OSError e), st, [])
    end
  else (Ok None, st, []).
Proof.
  unfold store_content. rewrite bind_get_state.
  destruct (file_logging st); [|reflexivity]. change (negb true) with false.
  cbv beta match.
  destruct (makedirs_fs d (fs st)) as [f1|e] eqn:Em.
  - rewrite (bind_run_ok _ _ st tt (set_fs f1 st)); [reflexivity|].
    unfold try_except. rewrite os_makedirs_run, Em. reflexivity.
  - destruct (decide (e = EEXIST)) as [He|He].
    + rewrite (bind_run_ok _ _ st tt st); [reflexivity|].
      unfold try_except. rewrite os_makedirs_run, Em.
      rewrite decide_True by exact He. reflexivity.
    + apply bind_run_raise. unfold try_except. rewrite os_makedirs_run, Em.
      rewrite decide_False by exact He. reflexivity.
Qed.

(** The directory was created. *)
Lemma store_content_created d f c st f1 :
  file_logging st = true ->
  makedirs_fs d (fs st) = inl f1 ->
  store_content d f c st =
  match write_fs (os_path_join d f) c f1 with
  | inl f2 => (Ok (Some (os_path_join d f)), set_fs f2 (set_fs f1 st), [])
  | inr e => (Raise (IOError e), set_fs f1 st, [])
  end.
Proof.
  intros Hl Hm. rewrite store_content_run, Hl, Hm, write_step_run. reflexivity.
Qed.

(** The directory was there: the call goes on. *)
Lemma store_content_exists d f c st :
  file_logging st = true ->
  makedirs_fs d (fs st) = inr EEXIST ->
  store_content d f c st =
  match write_fs (os_path_join d f) c (fs st) with
  | inl f2 => (Ok (Some (os_path_join d f)), set_fs f2 st, [])
  | inr e => (Raise (IOError e), st, [])
  end.
Proof.
  intros Hl Hm. rewrite store_content_run, Hl, Hm, write_step_run. reflexivity.
Qed.

(** Another fault of the directory creation: the call ends there. *)
Lemma store_content_fault d f c st e :
  file_logging st = true ->
  makedirs_fs d (fs st) = inr e ->
  e ≠ EEXIST ->
  store_content d f c st = (Raise (OSError e), st, []).
Proof.
  intros Hl Hm He. rewrite store_content_run, Hl, Hm.
  rewrite decide_False by exact He. reflexivity.
Qed.

(** After a call that returned, the directory creation of the next call
    with the same [dirname] answers "already exists". *)
Lemma makedirs_fs_again d f c st r st1 t :
  file_logging st = true ->
  store_content d f c st = (Ok r, st1, t) ->
  makedirs_fs d (fs st1) = inr EEXIST ∧
  (os_path_join d f ∉ fs_dirs (fs st1)) ∧
  fs_faults (fs st1) !! (os_path_join d f) = None ∧
  file_logging st1 = true.
Proof.
  intros Hl Hrun.
  assert (Hgen : ∀ f1 f2,
    (d ∈ fs_dirs f1 ∨ d ∈ dom (fs_files f1) ∨ fs_faults f1 !! d = Some EEXIST) ->
    write_fs (os_path_join d f) c f1 = inl f2 ->
    makedirs_fs d f2 = inr EEXIST ∧ (os_path_join d f ∉ fs_dirs f2) ∧
    fs_faults f2 !! (os_path_join d f) = None).
  { intros f1 f2 Hd Hw. unfold write_fs in Hw.
    destruct (decide (os_path_join d f ∈ fs_dirs f1)) as [|Hnd]; [discriminate|].
    destruct (fs_faults f1 !! (os_path_join d f)) eqn:Ef; [discriminate|].
    injection Hw as <-. simpl. split; [|split; [exact Hnd | exact Ef]].
    unfold makedirs_fs. simpl.
    destruct (decide (d ∈ fs_dirs f1 ∨
                      d ∈ dom (<[os_path_join d f:=c]> (fs_files f1))))
      as [|Hn]; [reflexivity|].
    destruct Hd as [Hd|[Hd|Hd]].
    - exfalso. apply Hn. left. exact Hd.
    - exfalso. apply Hn. right. rewrite dom_insert_L.
      apply elem_of_union. right. exact Hd.
    - rewrite Hd. reflexivity. }
  destruct (makedirs_fs d (fs st)) as [f1|e] eqn:Em.
  - rewrite (store_content_created _ _ _ _ _ Hl Em) in Hrun.
    destruct (write_fs (os_path_join d f) c f1) as [f2|e] eqn:Ew; [|discriminate].
    injection Hrun as <- <- <-. simpl.
    destruct (Hgen f1 f2) as (H1 & H2 & H3); [|exact Ew|auto].
    left. unfold makedirs_fs in Em.
    destruct (decide _); [discriminate|].
    destruct (fs_faults (fs st) !! d); [discriminate|].
    injection Em as <-. simpl.
    apply elem_of_union. left. apply elem_of_singleton. reflexivity.
  - destruct (decide (e = EEXIST)) as [->|He].
    + rewrite (store_content_exists _ _ _ _ Hl Em) in Hrun.
      destruct (write_fs (os_path_join d f) c (fs st)) as [f2|e] eqn:Ew; [|discriminate].
      injection Hrun as <- <- <-. simpl.
      destruct (Hgen (fs st) f2) as (H1 & H2 & H3); [|exact Ew|auto].
      unfold makedirs_fs in Em.
      destruct (decide _) as [[?|?]|]; [auto|auto|].
      destruct (fs_faults (fs st) !! d) as [e'|]; [|discriminate].
      injection Em as ->. auto.
    + rewrite (store_content_fault _ _ _ _ _ Hl Em He) in Hrun. discriminate.
Qed.

(** C8. (1) After a call of [store_content] that returned, a second call
    with the same [dirname] and [filename] returns as well, with the same
    result, and (2) a second call with the same [dirname] and any
    [filename] does not raise [OSError]: its directory creation cannot
    fail. (3) When the directory creation fails with "already exists", the
    call goes on to write the file. (4) When it fails with any other
    [errno], the call raises that [OSError] and writes nothing. *)
Theorem store_content_same_dirname d st :
  (∀ f c r st1 t c',
     store_content d f c st = (Ok r, st1, t) ->
     ∃ st2, store_content d f c' st1 = (Ok r, st2, [])) ∧
  (∀ f c r st1 t f' c' r' st2 t',
     store_content d f c st = (Ok r, st1, t) ->
     store_content d f' c' st1 = (r', st2, t') ->
     ∀ e, r' ≠ Raise (OSError e)) ∧
  (∀ f c,
     file_logging st = true ->
     makedirs_fs d (fs st) = inr EEXIST ->
     store_content d f c st
     = (open_wb_write (os_path_join d f) c ;; ret (Some (os_path_join d f))) st) ∧
  (∀ f c e,
     file_logging st = true ->
     makedirs_fs d (fs st) = inr e ->
     e ≠ EEXIST ->
     store_content d f c st = (Raise (OSError e), st, [])).
Proof.
  split; [|split; [|split]].
  - intros f c r st1 t c' Hrun.
    destruct (file_logging st) eqn:Hl.
    + destruct (makedirs_fs_again _ _ _ _ _ _ _ Hl Hrun) as (Hm & Hnd & Hnf & Hl1).
      rewrite (store_content_exists _ _ _ _ Hl1 Hm).
      unfold write_fs. rewrite decide_False by exact Hnd. rewrite Hnf.
      assert (r = Some (os_path_join d f)) as ->; [|eauto].
      rewrite store_content_run, Hl in Hrun.
      destruct (makedirs_fs d (fs st)) as [f1|e1].
      * rewrite write_step_run in Hrun. destruct (write_fs _ _ _); congruence.
      * destruct (decide _); [|congruence].
        rewrite write_step_run in Hrun. destruct (write_fs _ _ _); congruence.
    + rewrite (store_content_off _ _ _ _ Hl) in Hrun. injection Hrun as <- <- <-.
      rewrite (store_content_off _ _ _ _ Hl). eauto.
  - intros f c r st1 t f' c' r' st2 t' Hrun Hrun' e ->.
    destruct (file_logging st) eqn:Hl.
    + destruct (makedirs_fs_again _ _ _ _ _ _ _ Hl Hrun) as (Hm & _ & _ & Hl1).
      rewrite (store_content_exists _ _ _ _ Hl1 Hm) in Hrun'.
      destruct (write_fs _ _ _); discriminate.
    + rewrite (store_content_off _ _ _ _ Hl) in Hrun. injection Hrun as <- <- <-.
      rewrite (store_content_off _ _ _ _ Hl) in Hrun'. discriminate.
  - intros f c Hl Hm. rewrite store_content_run, Hl, Hm. reflexivity.
  - intros f c e. apply store_content_fault.
Qed.

Lemma store_content_same_dirname_witness :
  let run1 := store_content "logs" "a.json" "{}" Sample.st0 in
  run1.1.1 = Ok (Some "logs/a.json") ∧
  (∃ st2, store_content "logs" "a.json" "[]" run1.1.2
          = (Ok (Some "logs/a.json"), st2, [])) ∧
  store_content "logs" "a.json" "{}" Sample.st_denied
  = (Raise (OSError 13), Sample.st_denied, []).
Proof.
  split; [reflexivity|]. split.
  - apply (proj1 (store_content_same_dirname "logs" Sample.st0)
             "a.json" "{}" (Some "logs/a.json")
             (store_content "logs" "a.json" "{}" Sample.st0).1.2 [] "[]").
    reflexivity.
  - apply (proj2 (proj2 (proj2 (store_content_same_dirname "logs" Sample.st_denied)))
             "a.json" "{}" 13%Z); [reflexivity | reflexivity | discriminate].
Defined.

(** C9, as stated, fails: with file logging switched off nothing is written
    and no path is returned. *)
Lemma file_logging_off_counterexample :
  ¬ ∃ st' t,
      store_content "logs" "a.json" "{}" Sample.st_off
      = (Ok (Some (os_path_join "logs" "a.json")), st', t).
Proof.
  intros (st' & t & H).
  rewrite store_content_off in H by reflexivity. discriminate H.
Qed.

(** C9, amended. With file logging switched off, [store_content] does
    nothing and returns nothing. With file logging switched on, when
    [dirname] is not a regular file and the file system refuses neither the
    creation of [dirname] nor the writing of the file, [store_content]
    returns [os.path.join(dirname, filename)]; after the call [dirname] is a
    directory, the directories there before still are, and the file holds
    [content]. *)
Theorem store_content_writes d f c st :
  (file_logging st = false -> store_content d f c st = (Ok None, st, [])) ∧
  (file_logging st = true ->
   d ∉ dom (fs_files (fs st)) ->
   fs_faults (fs st) !! d = None ->
   os_path_join d f ≠ d ->
   os_path_join d f ∉ fs_dirs (fs st) ->
   fs_faults (fs st) !! (os_path_join d f) = None ->
   ∃ st',
     store_content d f c st = (Ok (Some (os_path_join d f)), st', []) ∧
     d ∈ fs_dirs (fs st') ∧
     fs_dirs (fs st) ⊆ fs_dirs (fs st') ∧
     fs_files (fs st') = <[os_path_join d f := c]> (fs_files (fs st))).
Proof.
  split; [apply store_content_off|].
  intros Hl Hnf Hfd Hne Hnd Hfp. rewrite store_content_run, Hl.
  unfold makedirs_fs.
  destruct (decide (d ∈ fs_dirs (fs st) ∨ d ∈ dom (fs_files (fs st))))
    as [[Hd|Hd]|Hn].
  - rewrite decide_True by reflexivity. rewrite write_step_run.
    unfold write_fs. rewrite decide_False by exact Hnd. rewrite Hfp.
    eexists. split; [reflexivity|]. simpl. auto.
  - contradiction.
  - rewrite Hfd, write_step_run. unfold write_fs. simpl.
    rewrite decide_False, Hfp.
    + eexists. split; [reflexivity|]. simpl.
      split; [apply elem_of_union; left; apply elem_of_singleton; reflexivity|].
      split; [apply union_subseteq_r|reflexivity].
    + intros [Hin|Hin]%elem_of_union; [|contradiction].
      apply elem_of_singleton in Hin. contradiction.
Qed.

Lemma store_content_writes_witness :
  ∃ st', store_content "logs" "a.json" "{}" Sample.st0
         = (Ok (Some "logs/a.json"), st', []) ∧
         "logs" ∈ fs_dirs (fs st').
Proof.
  destruct (proj2 (store_content_writes "logs" "a.json" "{}" Sample.st0))
    as (st' & Hrun & Hd & _); try reflexivity.
  - vm_compute. discriminate.
  - discriminate.
  - vm_compute. discriminate.
  - exists st'. split; [exact Hrun | exact Hd].
Defined.

(** ** log_androguard *)

Lemma remember_heap name st : heap (remember name st) = heap st.
Proof. unfold remember. destruct (methods_cache st !! name); reflexivity. Qed.

Lemma deref_run sample st :
  deref sample st = (Ok (default ∅ (heap st !! sample)), st, []).
Proof. reflexivity. Qed.

Lemma dict_pop_run sample key dflt st d :
  heap st !! sample = Some d ->
  dict_pop sample key dflt st
  = (Ok (default dflt (d !! key)),
     set_heap (<[sample := delete key d]> (heap st)) st, []).
Proof.
  intros Hd. unfold dict_pop.
  rewrite (bind_run_ok _ _ st _ st (deref_run sample st)), Hd. simpl.
  destruct (d !! key) eqn:Ek; simpl.
  - rewrite bind_get_state. reflexivity.
  - rewrite delete_id by exact Ek. rewrite insert_id by exact Hd.
    destruct st; reflexivity.
Qed.

(** C10. [log_androguard] takes the "raw" entry out of the caller's sample
    dictionary ([None] when there is none) and then runs [__log_file] on the
    same dictionary with that value as data, followed by
    [log_analysis_module]. However the call ends, the caller's dictionary
    is the one it was without its "raw" entry, and the sample builder has
    not been called. *)
Theorem log_androguard_pops_raw dirname sample report st d :
  heap st !! sample = Some d ->
  log_androguard dirname sample report st
  = (__log_file sample (default VNone (d !! "raw")) None None ;;
     log_analysis_module dirname sample report "androguard" "txt")
      (set_heap (<[sample := delete "raw" d]> (heap st)) st) ∧
  ∃ r st' t,
    log_androguard dirname sample report st = (r, st', t) ∧
    heap st' !! sample = Some (delete "raw" d) ∧
    delete "raw" d !! "raw" = None ∧
    Forall (fun e => is_build_sample e = false) t.
Proof.
  intros Hd.
  assert (Heq : log_androguard dirname sample report st
    = (__log_file sample (default VNone (d !! "raw")) None None ;;
       log_analysis_module dirname sample report "androguard" "txt")
        (set_heap (<[sample := delete "raw" d]> (heap st)) st)).
  { unfold log_androguard.
    rewrite (bind_run_ok _ _ st _ _ (dict_pop_run sample "raw" VNone st d Hd)).
    reflexivity. }
  split; [exact Heq|].
  destruct (log_androguard dirname sample report st) as [[r st'] t] eqn:Erun.
  exists r, st', t. split; [reflexivity|].
  symmetry in Heq.
  assert (Htrans : ∀ a b c : State, heap b = heap a -> heap c = heap b ->
                                    heap c = heap a) by (intros; congruence).
  assert (Hw : within (fun a b => heap b = heap a)
                 (fun e => is_build_sample e = false)
                 (__log_file sample (default VNone (d !! "raw")) None None ;;
                  log_analysis_module dirname sample report "androguard" "txt")).
  { apply within_bind; [exact Htrans| |intros _].
    - apply within___log_file; auto using remember_heap.
    - apply within_log_analysis_module; auto using remember_heap. }
  destruct (Hw _ _ _ _ Heq) as [Hh Hq]. rewrite Hh. simpl.
  split; [apply lookup_insert_eq|]. split; [apply lookup_delete_eq|exact Hq].
Qed.

Lemma log_androguard_pops_raw_witness :
  heap Sample.st_apk !! 0%nat = Some Sample.apk ∧
  ∃ r st' t,
    log_androguard "/logs/analysis" 0%nat "report" Sample.st_apk = (r, st', t) ∧
    heap st' !! 0%nat = Some (delete "raw" Sample.apk).
Proof.
  split; [reflexivity|].
  destruct (proj2 (log_androguard_pops_raw "/logs/analysis" 0%nat "report"
                     Sample.st_apk Sample.apk eq_refl))
    as (r & st' & t & Hrun & Hh & _).
  exists r, st', t. split; [exact Hrun | exact Hh].
Defined.

(** * Further properties *)

(** ** Invariants of the operations *)

Section Hoare.

Variable I : State -> Prop.
Variable Q : Event -> Prop.
Variable R : Exn -> Prop.

Lemma hoare_ret {A} (a : A) : hoare I Q R (ret a).
Proof. intros st r st' t HI [= <- <- <-]. split; [|split]; [auto..|discriminate]. Qed.

Lemma hoare_raise {A} e : R e -> hoare I Q R (@raise A e).
Proof.
  intros He st r st' t HI [= <- <- <-]. split; [|split]; [auto..|].
  intros e' [= <-]. exact He.
Qed.

Lemma hoare_diverge {A} : hoare I Q R (@diverge A).
Proof. intros st r st' t HI [= <- <- <-]. split; [|split]; [auto..|discriminate]. Qed.

Lemma hoare_get_state : hoare I Q R get_state.
Proof. intros st r st' t HI [= <- <- <-]. split; [|split]; [auto..|discriminate]. Qed.

Lemma hoare_emit e : Q e -> hoare I Q R (emit e).
Proof. intros He st r st' t HI [= <- <- <-]. split; [|split]; [auto..|discriminate]. Qed.

Lemma hoare_bind {A B} (m : M A) (k : A -> M B) :
  hoare I Q R m -> (∀ a, hoare I Q R (k a)) -> hoare I Q R (bind m k).
Proof.
  intros Hm Hk st r st' t HI. unfold bind.
  destruct (m st) as [[ra st1] t1] eqn:Em.
  destruct (Hm _ _ _ _ HI Em) as (HI1 & HQ1 & HR1).
  destruct ra as [a|e|].
  - destruct (k a st1) as [[rb st2] t2] eqn:Ek.
    destruct (Hk a _ _ _ _ HI1 Ek) as (HI2 & HQ2 & HR2).
    intros [= <- <- <-]. split; [exact HI2|]. split; [|exact HR2].
    apply Forall_app; auto.
  - intros [= <- <- <-]. split; [exact HI1|]. split; [exact HQ1|].
    intros e' [= <-]. apply HR1. reflexivity.
  - intros [= <- <- <-]. split; [exact HI1|]. split; [exact HQ1|discriminate].
Qed.

Lemma hoare_try_except {A} (m : M A) (handler : Exn -> M A) (R' : Exn -> Prop) :
  hoare I Q R' m -> (∀ e, R' e -> hoare I Q R (handler e)) ->
  hoare I Q R (try_except m handler).
Proof.
  intros Hm Hh st r st' t HI. unfold try_except.
  destruct (m st) as [[ra st1] t1] eqn:Em.
  destruct (Hm _ _ _ _ HI Em) as (HI1 & HQ1 & HR1).
  destruct ra as [a|e|].
  - intros [= <- <- <-]. split; [exact HI1|]. split; [exact HQ1|discriminate].
  - destruct (handler e st1) as [[rb st2] t2] eqn:Eh.
    destruct (Hh e (HR1 e eq_refl) _ _ _ _ HI1 Eh) as (HI2 & HQ2 & HR2).
    intros [= <- <- <-]. split; [exact HI2|]. split; [|exact HR2].
    apply Forall_app; auto.
  - intros [= <- <- <-]. split; [exact HI1|]. split; [exact HQ1|discriminate].
Qed.

Lemma hoare_for_each {A} (l : list A) (body : A -> M unit) :
  (∀ x, x ∈ l -> hoare I Q R (body x)) -> hoare I Q R (for_each l body).
Proof.
  induction l as [|x l IH]; intros Hb; simpl.
  - apply hoare_ret.
  - apply hoare_bind.
    + apply Hb. left.
    + intros _. apply IH. intros y Hy. apply Hb. right. exact Hy.
Qed.

Lemma hoare_deref sample : hoare I Q R (deref sample).
Proof. intros st r st' t HI [= <- <- <-]. split; [|split]; [auto..|discriminate]. Qed.

Lemma hoare_dict_getitem sample key :
  R (KeyError key) -> hoare I Q R (dict_getitem sample key).
Proof.
  intros HR. unfold dict_getitem. apply hoare_bind; [apply hoare_deref|].
  intros d. destruct (d !! key); [apply hoare_ret | apply hoare_raise, HR].
Qed.

(** State changes that keep [I], whatever they write. *)

Lemma hoare_dict_pop_of sample key dflt :
  (∀ h st, I st -> I (set_heap h st)) -> hoare I Q R (dict_pop sample key dflt).
Proof.
  intros Hh st r st' t HI. unfold dict_pop.
  rewrite (bind_run_ok _ _ st _ st (deref_run sample st)).
  destruct (default ∅ (heap st !! sample) !! key).
  - rewrite bind_get_state. intros [= <- <- <-].
    split; [|split]; [auto..|discriminate].
  - intros [= <- <- <-]. split; [|split]; [auto..|discriminate].
Qed.

Lemma hoare_alloc_of d :
  (∀ h st, I st -> I (set_heap h st)) -> hoare I Q R (alloc d).
Proof.
  intros Hh st r st' t HI. unfold alloc. rewrite bind_get_state.
  intros [= <- <- <-]. split; [|split]; [auto..|discriminate].
Qed.

Lemma hoare_store_content_of d f c :
  (∀ f' st, I st -> I (set_fs f' st)) ->
  (∀ n, R (OSError n)) -> (∀ n, R (IOError n)) ->
  hoare I Q R (store_content d f c).
Proof.
  intros Hf Ho Hi st r st' t HI. rewrite store_content_run.
  assert (Hw : ∀ st1, I st1 ->
    (open_wb_write (os_path_join d f) c ;; ret (Some (os_path_join d f))) st1
    = (r, st', t) -> I st' ∧ Forall Q t ∧ ∀ e, r = Raise e -> R e).
  { intros st1 HI1. rewrite write_step_run.
    destruct (write_fs _ _ _); intros [= <- <- <-].
    - split; [|split]; [auto..|discriminate].
    - split; [|split]; [auto..|]. intros e [= <-]. apply Hi. }
  destruct (file_logging st).
  - destruct (makedirs_fs d (fs st)) as [f1|e].
    + apply Hw, Hf, HI.
    + destruct (decide (e = EEXIST)); [apply Hw, HI|].
      intros [= <- <- <-]. split; [|split]; [auto..|].
      intros e' [= <-]. apply Ho.
  - intros [= <- <- <-]. split; [|split]; [auto..|discriminate].
Qed.

(** The operations. *)

Hypothesis I_remember : ∀ name st, I st -> I (remember name st).
Hypothesis Q_resolved :
  ∀ name st m args,
    I st -> m ∈ resolved name st -> event_name args name ->
    Q (HandlerCall m args).
Hypothesis Q_other : ∀ e, is_handler_call e = false -> Q e.
Hypothesis R_type : R (KeyError "type").
Hypothesis R_md5 : R (KeyError "md5").
Hypothesis H_store : ∀ d f c, hoare I Q R (store_content d f c).
Hypothesis H_pop : ∀ sample, hoare I Q R (dict_pop sample "raw" VNone).
Hypothesis H_alloc : ∀ d, hoare I Q R (alloc d).

Lemma hoare_resolve_method name : hoare I Q R (resolve_method name).
Proof.
  intros st r st' t HI. rewrite resolve_method_run. intros [= <- <- <-].
  split; [|split]; [auto..|discriminate].
Qed.

(** After [resolve_method name], the handlers it answered may be called
    with the arguments of the event [name]. *)
Lemma hoare_bind_resolve {B} name (k : list Handler -> M B) :
  (∀ methods,
     (∀ m args, m ∈ methods -> event_name args name -> Q (HandlerCall m args)) ->
     hoare I Q R (k methods)) ->
  hoare I Q R (bind (resolve_method name) k).
Proof.
  intros Hk st r st' t HI. unfold bind. rewrite resolve_method_run.
  destruct (k (resolved name st) (remember name st)) as [[rb st2] t2] eqn:Ek.
  intros [= <- <- <-]. simpl.
  eapply (Hk (resolved name st)); [|apply I_remember, HI|exact Ek].
  intros m args Hin Hev. eapply Q_resolved; eauto.
Qed.

Lemma hoare_broadcast name args :
  event_name args name -> hoare I Q R (broadcast name args).
Proof.
  intros Hev. unfold broadcast. apply hoare_bind_resolve. intros methods Hq.
  apply hoare_for_each. intros m Hm. apply hoare_emit. apply Hq; assumption.
Qed.

Lemma hoare_add_behavior_warn d c m : hoare I Q R (add_behavior_warn d c m).
Proof.
  unfold add_behavior_warn. apply hoare_bind.
  - apply hoare_broadcast. reflexivity.
  - intros _. apply hoare_emit, Q_other. reflexivity.
Qed.

Lemma hoare_log_connection s d m f : hoare I Q R (log_connection s d m f).
Proof. unfold log_connection. apply hoare_broadcast. reflexivity. Qed.

Lemma hoare_add_code_snippet s l r m c : hoare I Q R (add_code_snippet s l r m c).
Proof.
  unfold add_code_snippet. destruct (c && check_snippet s).
  - apply hoare_ret.
  - apply hoare_broadcast. reflexivity.
Qed.

Lemma hoare___log_file sample data url params :
  hoare I Q R (__log_file sample data url params).
Proof.
  unfold __log_file. apply hoare_bind_resolve. intros methods Hq.
  apply hoare_bind.
  { apply hoare_for_each. intros m Hm. apply hoare_bind; [apply hoare_deref|].
    intros d. apply hoare_emit, Hq; [exact Hm|reflexivity]. }
  intros _. apply hoare_bind; [apply hoare_get_state|]. intros st.
  apply hoare_bind; [apply hoare_emit, Q_other; reflexivity|]. intros _.
  apply hoare_bind; [apply hoare_dict_getitem, R_type|]. intros ty.
  apply hoare_bind.
  { destruct (decide (ty = VStr "JAR")).
    - apply hoare_emit, Q_other. reflexivity.
    - apply hoare_ret. }
  intros _. apply hoare_bind; [apply hoare_dict_getitem, R_md5|]. intros md5.
  apply hoare_bind; [apply hoare_emit, Q_other; reflexivity|]. intros _.
  apply hoare_ret.
Qed.

Lemma hoare_log_file bs data url params :
  hoare I Q R (log_file bs data url params).
Proof.
  unfold log_file. apply hoare_bind; [apply hoare_emit, Q_other; reflexivity|].
  intros _. destruct (bs data url); [|apply hoare_ret].
  apply hoare_bind; [apply H_alloc|]. intros sample.
  apply hoare_bind; [apply hoare___log_file|]. intros r. apply hoare_ret.
Qed.

Lemma hoare_log_hop h : hoare I Q R (log_hop h).
Proof.
  unfold log_hop.
  apply hoare_bind; [apply hoare_add_behavior_warn|]. intros _.
  apply hoare_bind; [apply hoare_log_connection|]. intros _.
  apply hoare_bind; [apply hoare_emit, Q_other; reflexivity|]. intros _.
  apply hoare_emit, Q_other. reflexivity.
Qed.

Lemma hoare_log_redirect fuel response : hoare I Q R (log_redirect fuel response).
Proof.
  unfold log_redirect. destruct response as [r|]; [|apply hoare_ret].
  destruct (negb (resp_true r)); [apply hoare_ret|].
  destruct (resp_history r) as [|h hs].
  - apply hoare_bind; [|intros _; apply hoare_ret].
    destruct (truthy_url (resp_url r)); [|apply hoare_ret].
    apply hoare_bind; [apply hoare_emit, Q_other; reflexivity|]. intros _.
    apply hoare_emit, Q_other. reflexivity.
  - destruct (while_final_is_None _ _ _); [|apply hoare_diverge].
    apply hoare_bind.
    { apply hoare_for_each. intros x _. apply hoare_log_hop. }
    intros _.
    apply hoare_bind; [apply hoare_emit, Q_other; reflexivity|]. intros _.
    apply hoare_bind; [apply hoare_emit, Q_other; reflexivity|]. intros _.
    apply hoare_ret.
Qed.

Lemma hoare_log_analysis_module d s r m f :
  hoare I Q R (log_analysis_module d s r m f).
Proof.
  unfold log_analysis_module.
  apply hoare_bind; [apply hoare_dict_getitem, R_md5|]. intros md5.
  apply hoare_bind; [apply H_store|]. intros _.
  apply hoare_broadcast. exists m. reflexivity.
Qed.

Lemma hoare_log_androguard d s r : hoare I Q R (log_androguard d s r).
Proof.
  unfold log_androguard.
  apply hoare_bind; [apply H_pop|]. intros raw.
  apply hoare_bind; [apply hoare___log_file|]. intros _.
  apply hoare_log_analysis_module.
Qed.

Lemma hoare_log_href_redirect referer url :
  hoare I Q R (log_href_redirect referer url).
Proof.
  unfold log_href_redirect.
  apply hoare_bind; [apply hoare_add_behavior_warn|]. intros _.
  apply hoare_log_connection.
Qed.

Lemma hoare_run_op bs op : hoare I Q R (run_op bs op).
Proof.
  destruct op; simpl.
  - apply hoare_bind; [apply hoare_resolve_method | intros; apply hoare_ret].
  - apply hoare_add_behavior_warn.
  - apply hoare_add_code_snippet.
  - apply hoare_bind; [apply hoare_log_file | intros; apply hoare_ret].
  - apply hoare_log_connection.
  - apply hoare_bind; [apply hoare_log_redirect | intros; apply hoare_ret].
  - apply hoare_bind; [apply H_store | intros; apply hoare_ret].
  - apply hoare_log_analysis_module.
  - apply hoare_log_androguard.
Qed.

End Hoare.

(** An invariant of every operation is an invariant of the session. *)
Lemma session_invariant (I : State -> Prop) bs st0 st :
  (∀ op, hoare I (fun _ => True) (fun _ => True) (run_op bs op)) ->
  session bs st0 st -> I st0 -> I st.
Proof.
  intros Hop Hs HI0. induction Hs as [|st op r st' t _ IH Hrun]; [exact HI0|].
  destruct (Hop op _ _ _ _ IH Hrun) as [HI _]. exact HI.
Qed.

(** ** Invariants of a session *)

Lemma remember_baseDir name st : baseDir (remember name st) = baseDir st.
Proof. unfold remember. destruct (methods_cache st !! name); reflexivity. Qed.

Lemma remember_file_logging name st :
  file_logging (remember name st) = file_logging st.
Proof. unfold remember. destruct (methods_cache st !! name); reflexivity. Qed.

Lemma remember_fs name st : fs (remember name st) = fs st.
Proof. unfold remember. destruct (methods_cache st !! name); reflexivity. Qed.

Lemma cache_grows_resolved st st' name :
  cache_grows st st' -> resolved name st' = resolved name st.
Proof.
  intros [Hm Hc]. unfold resolved.
  destruct (Hc name) as [E|[E E']].
  - rewrite E, Hm. reflexivity.
  - rewrite E, E'. reflexivity.
Qed.

(** X1. Whatever the cache holds when a session starts, the handlers a name
    resolves to are the same in every state of the session: no operation
    changes the answer of [resolve_method] for any name. *)
Theorem session_resolved_stable bs st0 st name :
  session bs st0 st -> resolved name st = resolved name st0.
Proof. intros Hs. apply cache_grows_resolved. eapply session_cache_grows, Hs. Qed.

Lemma session_resolved_stable_witness :
  ∃ st, session (fun _ _ => None) Sample.st0 st ∧
        methods_cache st !! "log_connection" ≠ None ∧
        resolved "log_file" st = resolved "log_file" Sample.st0.
Proof.
  exists (log_connection None None "href" ∅ Sample.st0).1.2.
  assert (Hs : session (fun _ _ => None) Sample.st0
                 (log_connection None None "href" ∅ Sample.st0).1.2).
  { eapply (session_step _ _ Sample.st0 (OpLogConnection None None "href" ∅));
      [apply session_start | reflexivity]. }
  split; [exact Hs|]. split; [discriminate|].
  apply (session_resolved_stable _ _ _ "log_file" Hs).
Defined.

(** X2. In a session that started with an empty cache, the modules are the
    ones of the start and every entry of the cache is the list of the
    implementers of its name: the cache never holds a stale or foreign
    list. *)
Theorem session_cache_sound bs st0 st :
  methods_cache st0 = ∅ ->
  session bs st0 st ->
  modules st = modules st0 ∧
  ∀ name l, methods_cache st !! name = Some l ->
            l = implementers name (modules st0).
Proof.
  intros Hempty Hs. destruct (session_cache_grows _ _ _ Hs) as [Hm Hc].
  split; [exact Hm|]. intros name l Hl.
  destruct (Hc name) as [E|[_ E]].
  - rewrite E, Hempty, lookup_empty in Hl. discriminate.
  - rewrite E in Hl. injection Hl as <-. apply scan_modules_implementers.
Qed.

Lemma session_cache_sound_witness :
  ∃ st, session (fun _ _ => None) Sample.st0 st ∧
        methods_cache st !! "log_connection"
        = Some [Bound "json" "log_connection"; Bound "text" "log_connection"].
Proof.
  exists (log_connection None None "href" ∅ Sample.st0).1.2.
  assert (Hs : session (fun _ _ => None) Sample.st0
                 (log_connection None None "href" ∅ Sample.st0).1.2).
  { eapply (session_step _ _ Sample.st0 (OpLogConnection None None "href" ∅));
      [apply session_start | reflexivity]. }
  split; [exact Hs|].
  destruct (methods_cache (log_connection None None "href" ∅ Sample.st0).1.2
              !! "log_connection") as [l|] eqn:E; [|discriminate E].
  rewrite (proj2 (session_cache_sound (fun _ _ => None) Sample.st0 _ eq_refl Hs)
             _ _ E). reflexivity.
Defined.

(** X3. No operation changes the registry, the output directory or the
    file-logging switch. *)
Theorem session_config_fixed bs st0 st :
  session bs st0 st ->
  modules st = modules st0 ∧ baseDir st = baseDir st0 ∧
  file_logging st = file_logging st0.
Proof.
  intros Hs.
  apply (session_invariant
           (fun s => modules s = modules st0 ∧ baseDir s = baseDir st0 ∧
                     file_logging s = file_logging st0) bs st0 st);
    [|exact Hs|auto].
  intros op. apply hoare_run_op; try solve [auto].
  - intros name s (H1 & H2 & H3).
    rewrite remember_modules, remember_baseDir, remember_file_logging. auto.
  - intros d f c. apply hoare_store_content_of; auto.
  - intros sample. apply hoare_dict_pop_of; auto.
  - intros d. apply hoare_alloc_of; auto.
Qed.

Lemma session_config_fixed_witness :
  ∃ st, session (fun _ _ => None) Sample.st0 st ∧
        fs st ≠ fs Sample.st0 ∧ baseDir st = Some "/logs".
Proof.
  exists (store_content "logs" "a.json" "{}" Sample.st0).1.2.
  assert (Hs : session (fun _ _ => None) Sample.st0
                 (store_content "logs" "a.json" "{}" Sample.st0).1.2).
  { eapply (session_step _ _ Sample.st0 (OpStoreContent "logs" "a.json" "{}"));
      [apply session_start | reflexivity]. }
  split; [exact Hs|]. split; [discriminate|].
  apply (session_config_fixed _ _ _ Hs).
Defined.

Lemma cache_sound_remember ms name st :
  cache_sound ms st -> cache_sound ms (remember name st).
Proof.
  intros [Hm Hc]. split; [rewrite remember_modules; exact Hm|].
  intros n l. unfold remember.
  destruct (methods_cache st !! name) eqn:E; [apply Hc|].
  simpl. destruct (decide (name = n)) as [<-|Hne].
  - rewrite lookup_insert_eq, Hm. intros [= <-]. reflexivity.
  - rewrite lookup_insert_ne by exact Hne. apply Hc.
Qed.

Lemma cache_sound_resolved ms name st :
  cache_sound ms st -> resolved name st = implementers name ms.
Proof.
  intros [Hm Hc]. unfold resolved. rewrite <- scan_modules_implementers.
  destruct (methods_cache st !! name) eqn:E; [apply Hc, E|].
  rewrite Hm. reflexivity.
Qed.

Lemma implementers_registered ms name m args :
  m ∈ implementers name ms -> event_name args name ->
  registered_call ms (HandlerCall m args).
Proof.
  unfold implementers. intros Hin Hev.
  apply list_elem_of_fmap in Hin as (km & -> & Hkm).
  apply list_elem_of_filter in Hkm as [Hop Hkm]. simpl.
  split; [|exact Hev]. exists km. auto.
Qed.

Lemma cache_sound_run_op ms bs op :
  hoare (cache_sound ms) (registered_call ms) (fun _ => True) (run_op bs op).
Proof.
  apply hoare_run_op; try solve [auto].
  - apply cache_sound_remember.
  - intros name st m args HI Hin Hev.
    rewrite (cache_sound_resolved _ _ _ HI) in Hin.
    eapply implementers_registered; eauto.
  - intros e He. destruct e; try exact Logic.I. discriminate He.
  - intros d f c. apply hoare_store_content_of; auto.
  - intros sample. apply hoare_dict_pop_of; auto.
  - intros d. apply hoare_alloc_of; auto.
Qed.

Lemma session_cache_sound_inv bs st0 st :
  methods_cache st0 = ∅ -> session bs st0 st -> cache_sound (modules st0) st.
Proof.
  intros Hempty Hs. destruct (session_cache_grows _ _ _ Hs) as [Hm Hc].
  split; [exact Hm|]. intros name l Hl.
  destruct (Hc name) as [E|[_ E]].
  - rewrite E, Hempty, lookup_empty in Hl. discriminate.
  - rewrite E in Hl. injection Hl as <-. reflexivity.
Qed.

(** X5. While file logging is switched off, no operation touches the file
    system. *)
Theorem session_fs_untouched bs st0 st :
  file_logging st0 = false ->
  session bs st0 st ->
  fs st = fs st0.
Proof.
  intros Hoff Hs.
  apply (session_invariant
           (fun s => file_logging s = false ∧ fs s = fs st0) bs st0 st);
    [|exact Hs|auto].
  intros op. apply hoare_run_op; try solve [auto].
  - intros name s [H1 H2]. rewrite remember_file_logging, remember_fs. auto.
  - intros d f c s r s' t [H1 H2]. rewrite (store_content_off _ _ _ _ H1).
    intros [= <- <- <-]. split; [|split]; [auto..|discriminate].
  - intros sample. apply hoare_dict_pop_of; auto.
  - intros d. apply hoare_alloc_of; auto.
Qed.

Lemma session_fs_untouched_witness :
  ∃ st, session (fun _ _ => None) Sample.st_off st ∧ fs st = Sample.empty_fs.
Proof.
  exists (store_content "logs" "a.json" "{}" Sample.st_off).1.2.
  assert (Hs : session (fun _ _ => None) Sample.st_off
                 (store_content "logs" "a.json" "{}" Sample.st_off).1.2).
  { eapply (session_step _ _ Sample.st_off (OpStoreContent "logs" "a.json" "{}"));
      [apply session_start | reflexivity]. }
  split; [exact Hs|].
  apply (session_fs_untouched (fun _ _ => None) Sample.st_off _ eq_refl Hs).
Defined.

Lemma heap_evolved_refl h : heap_evolved h h.
Proof. intros l d Hd. left. exact Hd. Qed.

Lemma hoare_heap_evolved_pop h0 sample :
  hoare (fun s => heap_evolved h0 (heap s)) (fun _ => True) (fun _ => True)
    (dict_pop sample "raw" VNone).
Proof.
  intros st r st' t HI. unfold dict_pop.
  rewrite (bind_run_ok _ _ st _ st (deref_run sample st)).
  destruct (default ∅ (heap st !! sample) !! "raw") eqn:Eraw.
  - rewrite bind_get_state. intros [= <- <- <-].
    split; [|split]; [|auto|discriminate].
    simpl. intros l d Hd.
    destruct (decide (sample = l)) as [<-|Hne].
    + rewrite lookup_insert_eq.
      destruct (HI _ _ Hd) as [E|E]; rewrite E; simpl.
      * right. reflexivity.
      * right. rewrite delete_delete_eq. reflexivity.
    + rewrite lookup_insert_ne by exact Hne. apply HI, Hd.
  - intros [= <- <- <-]. split; [|split]; [auto..|discriminate].
Qed.

Lemma hoare_heap_evolved_alloc h0 d :
  hoare (fun s => heap_evolved h0 (heap s)) (fun _ => True) (fun _ => True)
    (alloc d).
Proof.
  intros st r st' t HI. unfold alloc. rewrite bind_get_state.
  intros [= <- <- <-]. split; [|split]; [|auto|discriminate].
  simpl. intros l d0 Hd. rewrite lookup_insert_ne; [apply HI, Hd|].
  intros <-.
  assert (Hin : fresh (dom (heap st)) ∈ dom (heap st)).
  { apply elem_of_dom. destruct (HI _ _ Hd) as [E|E]; rewrite E; eauto. }
  exact (is_fresh _ Hin).
Qed.

(** X6. A session never drops a sample dictionary, and the only change it
    makes to a dictionary that was there is to take its "raw" entry out. *)
Theorem session_heap_evolved bs st0 st :
  session bs st0 st -> heap_evolved (heap st0) (heap st).
Proof.
  intros Hs.
  apply (session_invariant (fun s => heap_evolved (heap st0) (heap s)) bs st0 st);
    [|exact Hs|apply heap_evolved_refl].
  intros op. apply hoare_run_op; try solve [auto].
  - intros name s H. rewrite remember_heap. exact H.
  - intros d f c. apply hoare_store_content_of; auto.
  - apply hoare_heap_evolved_pop.
  - apply hoare_heap_evolved_alloc.
Qed.

Lemma session_heap_evolved_witness :
  ∃ st, session (fun _ _ => None) Sample.st_apk st ∧
        heap st !! 0%nat = Some (delete "raw" Sample.apk) ∧
        heap_evolved (heap Sample.st_apk) (heap st).
Proof.
  exists (log_androguard "/logs" 0%nat "report" Sample.st_apk).1.2.
  assert (Hs : session (fun _ _ => None) Sample.st_apk
                 (log_androguard "/logs" 0%nat "report" Sample.st_apk).1.2).
  { eapply (session_step _ _ Sample.st_apk (OpLogAndroguard "/logs" 0%nat "report"));
      [apply session_start | reflexivity]. }
  split; [exact Hs|]. split; [reflexivity|].
  apply (session_heap_evolved _ _ _ Hs).
Defined.

(** ** Exceptions *)

(** X7. The exceptions of the facade itself: the dispatch operations and
    [log_redirect] end without exception; [log_file] can only raise
    [KeyError] on "type" or "md5", [store_content] only [OSError] or
    [IOError], [log_analysis_module] only [KeyError] on "md5" or a fault of
    the store, [log_androguard] any of these. *)
Theorem run_op_raises bs op st e st' t :
  run_op bs op st = (Raise e, st', t) -> may_raise op e.
Proof.
  intros Hrun.
  assert (Hstore : ∀ (R : Exn -> Prop),
            (∀ n, R (OSError n)) -> (∀ n, R (IOError n)) ->
            ∀ d f c, hoare (fun _ => True) (fun _ => True) R (store_content d f c)).
  { intros R Ho Hi d f c. apply hoare_store_content_of; auto. }
  assert (Hos : ∀ n, ∃ n', OSError n = OSError n' ∨ OSError n = IOError n')
    by (intros n; exists n; auto).
  assert (Hio : ∀ n, ∃ n', IOError n = OSError n' ∨ IOError n = IOError n')
    by (intros n; exists n; auto).
  enough (H : hoare (fun _ => True) (fun _ => True) (may_raise op) (run_op bs op)).
  { destruct (H _ _ _ _ Logic.I Hrun) as (_ & _ & HR). apply HR. reflexivity. }
  destruct op; simpl run_op.
  - apply hoare_bind; [|intros; apply hoare_ret].
    apply hoare_resolve_method; auto.
  - apply hoare_add_behavior_warn; auto.
  - apply hoare_add_code_snippet; auto.
  - apply hoare_bind; [|intros; apply hoare_ret].
    apply hoare_log_file; simpl; auto.
    intros d0. apply hoare_alloc_of; auto.
  - apply hoare_log_connection; auto.
  - apply hoare_bind; [|intros; apply hoare_ret].
    apply hoare_log_redirect; auto.
  - apply hoare_bind; [|intros; apply hoare_ret].
    apply Hstore; simpl; auto.
  - apply hoare_log_analysis_module; simpl; auto.
    apply Hstore; simpl; auto.
  - apply hoare_log_androguard; simpl; auto.
    + apply Hstore; simpl; auto.
    + intros s0. apply hoare_dict_pop_of; auto.
Qed.

Lemma run_op_raises_witness :
  run_op (fun _ _ => None) (OpLogAnalysisModule "/logs" 0%nat "report" "peepdf" "xml")
    More.st_unhashed
  = (Raise (KeyError "md5"), More.st_unhashed, []) ∧
  may_raise (OpLogAnalysisModule "/logs" 0%nat "report" "peepdf" "xml")
    (KeyError "md5").
Proof.
  split; [reflexivity|].
  apply (run_op_raises (fun _ _ => None)
           (OpLogAnalysisModule "/logs" 0%nat "report" "peepdf" "xml")
           More.st_unhashed (KeyError "md5") More.st_unhashed []).
  reflexivity.
Defined.

(** ** The final URL *)

(** X8. For a true response with hops, one unit of fuel decides: the final
    URL is the response's own URL when it has one; else the URL of the
    oldest hop when that hop has one; else the call does not return. The
    URLs of the other hops play no part. *)
Theorem log_redirect_final_url fuel r h l st :
  resp_true r = true ->
  resp_history r = h :: l ->
  match resp_url r, hop_url h with
  | Some u, _ | None, Some u =>
      ∃ t, log_redirect (S fuel) (Some r) st = (Ok (Some u), redirect_state st, t)
  | None, None =>
      log_redirect (S fuel) (Some r) st = (Diverge, st, [])
  end.
Proof.
  intros Ht Hh.
  destruct (resp_url r) as [u|] eqn:Eu.
  - eexists. eapply log_redirect_run; eauto.
    rewrite Eu. apply while_final_known.
  - destruct (hop_url h) as [u|] eqn:Eh.
    + eexists. eapply log_redirect_run; eauto.
      rewrite Eu. apply while_oldest_Some, Eh.
    + unfold log_redirect. rewrite Ht, Hh, Eu, (while_oldest_None _ h l Eh).
      reflexivity.
Qed.

Lemma log_redirect_final_url_witness :
  ∃ t, log_redirect 1 (Some Sample.chain_no_url) Sample.st0
       = (Ok (Some "http://a/"), redirect_state Sample.st0, t).
Proof.
  apply (log_redirect_final_url 0 Sample.chain_no_url Sample.hopA [Sample.hopB]
           Sample.st0 eq_refl eq_refl).
Defined.

(** ** Snippets *)

(** X9. The threshold of [add_code_snippet] is exactly 4: with [check] set,
    a snippet of length 4 or more is handled as with [check] unset. *)
Theorem add_code_snippet_long snippet language relationship method st :
  (4 <= String.length snippet)%nat ->
  add_code_snippet snippet language relationship method true st
  = add_code_snippet snippet language relationship method false st.
Proof.
  intros Hlen. unfold add_code_snippet, check_snippet, eval_min_length_logging.
  destruct (Nat.ltb_spec (String.length snippet) 4); [lia|reflexivity].
Qed.

Lemma add_code_snippet_long_witness :
  (4 <= String.length "x=12")%nat ∧
  add_code_snippet "x=12" "Javascript" "Contained_Inside" "Dynamic Analysis"
    true Sample.st0
  = (Ok tt, remember "add_code_snippet" Sample.st0,
     [HandlerCall (Bound "json" "add_code_snippet")
        (ArgsCodeSnippet "x=12" "Javascript" "Contained_Inside"
           "Dynamic Analysis")]).
Proof.
  split; [simpl; lia|].
  rewrite (add_code_snippet_long "x=12" "Javascript" "Contained_Inside"
             "Dynamic Analysis" Sample.st0); [reflexivity | simpl; lia].
Defined.

(** ** Logging a file *)

Lemma for_each_log_file_calls methods sample url params st :
  for_each methods
    (fun m => d <- deref sample ;; emit (HandlerCall m (ArgsLogFile d url params))) st
  = (Ok tt, st,
     (fun m => HandlerCall m
                 (ArgsLogFile (default ∅ (heap st !! sample)) url params))
       <$> methods).
Proof.
  induction methods as [|m methods IH]; simpl; [reflexivity|].
  unfold bind at 1.
  rewrite (bind_run_ok _ _ st _ st (deref_run sample st)).
  unfold emit at 1. rewrite IH. reflexivity.
Qed.

Lemma dict_getitem_run sample key st d :
  heap st !! sample = Some d ->
  dict_getitem sample key st =
  match d !! key with
  | Some v => (Ok v, st, [])
  | None => (Raise (KeyError key), st, [])
  end.
Proof.
  intros Hd. unfold dict_getitem.
  rewrite (bind_run_ok _ _ st _ st (deref_run sample st)), Hd. simpl.
  destruct (d !! key); reflexivity.
Qed.

(** The run of [__log_file] on a dictionary [d]. *)
Lemma __log_file_run sample data url params st d :
  heap st !! sample = Some d ->
  __log_file sample data url params st =
  match d !! "type" with
  | None =>
      (Raise (KeyError "type"), remember "log_file" st,
       log_file_head sample d data url params st)
  | Some ty =>
      let agent :=
        if decide (ty = VStr "JAR")
        then [HoneyAgentAnalyze data sample (baseDir st) params] else [] in
      match d !! "md5" with
      | None =>
          (Raise (KeyError "md5"), remember "log_file" st,
           log_file_head sample d data url params st ++ agent)
      | Some md5 =>
          (Ok sample, remember "log_file" st,
           log_file_head sample d data url params st ++ agent
           ++ [SampleClassify data md5])
      end
  end.
Proof.
  intros Hd. unfold __log_file, log_file_head.
  assert (Hd' : heap (remember "log_file" st) !! sample = Some d)
    by (rewrite remember_heap; exact Hd).
  unfold bind at 1. rewrite resolve_method_run.
  unfold bind at 1. rewrite for_each_log_file_calls, Hd'. simpl default.
  rewrite bind_get_state. unfold bind at 1. unfold emit at 1.
  unfold bind at 1. rewrite (dict_getitem_run _ _ _ _ Hd').
  rewrite remember_baseDir.
  destruct (d !! "type") as [ty|]; [|reflexivity].
  unfold bind at 1.
  destruct (decide (ty = VStr "JAR")).
  - unfold emit at 1. unfold bind at 1. rewrite (dict_getitem_run _ _ _ _ Hd').
    destruct (d !! "md5"); simpl; rewrite ?app_nil_r, <- ?app_assoc; reflexivity.
  - unfold ret at 1. unfold bind at 1. rewrite (dict_getitem_run _ _ _ _ Hd').
    destruct (d !! "md5"); simpl; rewrite ?app_nil_r, <- ?app_assoc; reflexivity.
Qed.

Lemma alloc_run d st :
  alloc d st
  = (Ok (fresh (dom (heap st))),
     set_heap (<[fresh (dom (heap st)) := d]> (heap st)) st, []).
Proof. unfold alloc. rewrite bind_get_state. reflexivity. Qed.

Lemma fresh_not_allocated st : heap st !! fresh (dom (heap st)) = None.
Proof. apply not_elem_of_dom, is_fresh. Qed.

(** The run of [log_file] on a sample that could be built. *)
Lemma log_file_run bs data url params st d :
  bs data url = Some d ->
  log_file bs data url params st =
  match __log_file (fresh (dom (heap st))) data url params
          (set_heap (<[fresh (dom (heap st)) := d]> (heap st)) st) with
  | (Ok sample, st', t) => (Ok (Some sample), st', BuildSample data url :: t)
  | (Raise e, st', t) => (Raise e, st', BuildSample data url :: t)
  | (Diverge, st', t) => (Diverge, st', BuildSample data url :: t)
  end.
Proof.
  intros Hb. unfold log_file. unfold bind at 1. unfold emit at 1.
  rewrite Hb. rewrite (bind_run_ok _ _ st _ _ (alloc_run d st)).
  unfold bind.
  destruct (__log_file _ _ _ _ _) as [[[sample| |] st'] t]; simpl;
    rewrite ?app_nil_r; reflexivity.
Qed.

(** X10. When the builder answers a dictionary with a type and a checksum,
    [log_file] returns a new reference that holds that dictionary and leaves
    the dictionaries that were there alone. It hands a copy of the
    dictionary to every [log_file] handler, then calls the scan service,
    then the dynamic-execution service exactly when the type is "JAR", then
    the classifier with the checksum. *)
Theorem log_file_sample bs data url params st d ty md5 :
  bs data url = Some d ->
  d !! "type" = Some ty ->
  d !! "md5" = Some md5 ->
  ∃ sample st' t,
    log_file bs data url params st = (Ok (Some sample), st', t) ∧
    heap st !! sample = None ∧
    heap st' = <[sample := d]> (heap st) ∧
    t = BuildSample data url ::
        ((fun m => HandlerCall m (ArgsLogFile d url params))
           <$> resolved "log_file" st)
        ++ [VirusTotalAnalyze data sample (baseDir st)]
        ++ (if decide (ty = VStr "JAR")
            then [HoneyAgentAnalyze data sample (baseDir st) params] else [])
        ++ [SampleClassify data md5].
Proof.
  intros Hb Hty Hmd5. exists (fresh (dom (heap st))). eexists _, _.
  rewrite (log_file_run _ _ _ _ _ _ Hb).
  rewrite (__log_file_run _ _ _ _ _ d) by apply lookup_insert_eq.
  rewrite Hty, Hmd5. cbv zeta.
  split; [reflexivity|]. split; [apply fresh_not_allocated|].
  split; [rewrite remember_heap; reflexivity|].
  unfold log_file_head. rewrite <- !app_assoc. reflexivity.
Qed.

Lemma log_file_sample_witness :
  ∃ sample st' t,
    log_file More.build_jar (VStr "PK") (Some "http://a/x.jar") None Sample.st0
    = (Ok (Some sample), st', t) ∧
    HoneyAgentAnalyze (VStr "PK") sample (Some "/logs") None ∈ t.
Proof.
  destruct (log_file_sample More.build_jar (VStr "PK") (Some "http://a/x.jar")
              None Sample.st0 More.jar (VStr "JAR")
              (VStr "92eb5ffee6ae2fec3ad71c777531578f") eq_refl eq_refl eq_refl)
    as (sample & st' & t & Hrun & _ & _ & Ht).
  exists sample, st', t. split; [exact Hrun|].
  rewrite Ht, decide_True by reflexivity.
  apply elem_of_cons; right. apply elem_of_app; right.
  apply elem_of_cons; right. apply elem_of_cons; left. reflexivity.
Defined.

(** X11. When the dictionary the builder answers has no type, [log_file]
    raises [KeyError] only after the [log_file] handlers and the scan
    service have been called; when it has a type and no checksum, the
    dynamic-execution service has been called too (for a JAR). In both
    cases the classifier is not called and the new dictionary stays
    allocated. *)
Theorem log_file_missing_key bs data url params st d :
  bs data url = Some d ->
  let sample := fresh (dom (heap st)) in
  let head :=
    BuildSample data url ::
    ((fun m => HandlerCall m (ArgsLogFile d url params)) <$> resolved "log_file" st)
    ++ [VirusTotalAnalyze data sample (baseDir st)] in
  (d !! "type" = None ->
   ∃ st', log_file bs data url params st = (Raise (KeyError "type"), st', head) ∧
          heap st' = <[sample := d]> (heap st)) ∧
  (∀ ty, d !! "type" = Some ty -> d !! "md5" = None ->
   ∃ st', log_file bs data url params st
          = (Raise (KeyError "md5"), st',
             head ++ (if decide (ty = VStr "JAR")
                      then [HoneyAgentAnalyze data sample (baseDir st) params]
                      else [])) ∧
          heap st' = <[sample := d]> (heap st)).
Proof.
  intros Hb sample head. split.
  - intros Hty. eexists.
    rewrite (log_file_run _ _ _ _ _ _ Hb).
    rewrite (__log_file_run _ _ _ _ _ d) by apply lookup_insert_eq.
    rewrite Hty. split; [reflexivity|]. rewrite remember_heap. reflexivity.
  - intros ty Hty Hmd5. eexists.
    rewrite (log_file_run _ _ _ _ _ _ Hb).
    rewrite (__log_file_run _ _ _ _ _ d) by apply lookup_insert_eq.
    rewrite Hty, Hmd5. cbv zeta.
    split.
    + subst head. unfold log_file_head. simpl. rewrite <- !app_assoc. reflexivity.
    + rewrite remember_heap. reflexivity.

Qed.

Lemma log_file_missing_key_witness :
  ∃ st' t,
    log_file More.build_untyped (VStr "PK") None None Sample.st0
    = (Raise (KeyError "type"), st', t) ∧
    VirusTotalAnalyze (VStr "PK") 0%nat (Some "/logs") ∈ t.
Proof.
  destruct (proj1 (log_file_missing_key More.build_untyped (VStr "PK") None None
                     Sample.st0 More.untyped eq_refl) eq_refl)
    as (st' & Hrun & _).
  eexists _, _. split; [exact Hrun|].
  apply elem_of_cons; right. apply elem_of_app; right.
  apply elem_of_cons; left. reflexivity.
Defined.

(** ** Analysis module reports *)

Lemma store_content_silent d f c st r st' t :
  store_content d f c st = (r, st', t) -> t = [].
Proof.
  rewrite store_content_run.
  destruct (file_logging st); [|intros [= <- <- <-]; reflexivity].
  destruct (makedirs_fs d (fs st)) as [f1|e].
  - rewrite write_step_run. destruct (write_fs _ _ _); intros [= <- <- <-]; reflexivity.
  - destruct (decide (e = EEXIST)); [|intros [= <- <- <-]; reflexivity].
    rewrite write_step_run. destruct (write_fs _ _ _); intros [= <- <- <-]; reflexivity.
Qed.

(** With a checksum in the dictionary, [log_analysis_module] is the store
    followed by the broadcast. *)
Lemma log_analysis_module_run dirname sample report module format st d md5 :
  heap st !! sample = Some d ->
  d !! "md5" = Some md5 ->
  log_analysis_module dirname sample report module format st
  = (store_content dirname (str_value md5 +:+ "." +:+ format) report ;;
     broadcast ("log_" +:+ module) (ArgsAnalysis sample report)) st.
Proof.
  intros Hd Hmd5. unfold log_analysis_module.
  rewrite (bind_run_ok _ _ st md5 st); [reflexivity|].
  rewrite (dict_getitem_run _ _ _ _ Hd), Hmd5. reflexivity.
Qed.

(** X12. On a sample without checksum, [log_analysis_module] raises
    [KeyError] at once: nothing is stored, no handler is resolved or
    called, the state is as before. *)
Theorem log_analysis_module_no_md5 dirname sample report module format st d :
  heap st !! sample = Some d ->
  d !! "md5" = None ->
  log_analysis_module dirname sample report module format st
  = (Raise (KeyError "md5"), st, []).
Proof.
  intros Hd Hmd5. unfold log_analysis_module.
  apply bind_run_raise. rewrite (dict_getitem_run _ _ _ _ Hd), Hmd5. reflexivity.
Qed.

Lemma log_analysis_module_no_md5_witness :
  log_analysis_module "/logs" 0%nat "report" "peepdf" "xml" More.st_unhashed
  = (Raise (KeyError "md5"), More.st_unhashed, []).
Proof.
  apply (log_analysis_module_no_md5 "/logs" 0%nat "report" "peepdf" "xml"
           More.st_unhashed More.unhashed); reflexivity.
Defined.

(** X13. When the store of the report raises, [log_analysis_module] raises
    the same exception and the report reaches no backend: no handler is
    resolved or called. *)
Theorem log_analysis_module_store_fault
    dirname sample report module format st d md5 e st1 t1 :
  heap st !! sample = Some d ->
  d !! "md5" = Some md5 ->
  store_content dirname (str_value md5 +:+ "." +:+ format) report st
  = (Raise e, st1, t1) ->
  log_analysis_module dirname sample report module format st
  = (Raise e, st1, []) ∧
  methods_cache st1 = methods_cache st.
Proof.
  intros Hd Hmd5 Hs.
  pose proof (store_content_silent _ _ _ _ _ _ _ Hs) as ->.
  rewrite (log_analysis_module_run _ _ _ _ _ _ _ _ Hd Hmd5).
  split; [apply bind_run_raise, Hs|].
  revert Hs. rewrite store_content_run.
  destruct (file_logging st); [|discriminate].
  destruct (makedirs_fs dirname (fs st)) as [f1|e'].
  - rewrite write_step_run. destruct (write_fs _ _ _); intros [= <- <-]; reflexivity.
  - destruct (decide (e' = EEXIST)); [|intros [= <- <-]; reflexivity].
    rewrite write_step_run. destruct (write_fs _ _ _); intros [= <- <-]; reflexivity.
Qed.

Lemma log_analysis_module_store_fault_witness :
  log_analysis_module "logs" 0%nat "report" "virustotal" "json"
    (set_heap {[0%nat := More.jar]} Sample.st_denied)
  = (Raise (OSError 13), set_heap {[0%nat := More.jar]} Sample.st_denied, []).
Proof.
  apply (log_analysis_module_store_fault "logs" 0%nat "report" "virustotal" "json"
           (set_heap {[0%nat := More.jar]} Sample.st_denied) More.jar
           (VStr "92eb5ffee6ae2fec3ad71c777531578f") (OSError 13)
           (set_heap {[0%nat := More.jar]} Sample.st_denied) []);
    reflexivity.
Defined.

(** X14. With file logging switched off, [log_analysis_module] stores
    nothing and still hands the report to every handler of
    [log_<module>]. *)
Theorem log_analysis_module_off dirname sample report module format st d md5 :
  heap st !! sample = Some d ->
  d !! "md5" = Some md5 ->
  file_logging st = false ->
  log_analysis_module dirname sample report module format st
  = (Ok tt, remember ("log_" +:+ module) st,
     (fun m => HandlerCall m (ArgsAnalysis sample report))
       <$> resolved ("log_" +:+ module) st) ∧
  fs (remember ("log_" +:+ module) st) = fs st.
Proof.
  intros Hd Hmd5 Hoff. split; [|apply remember_fs].
  rewrite (log_analysis_module_run _ _ _ _ _ _ _ _ Hd Hmd5).
  rewrite (bind_run_ok _ _ st None st) by (apply store_content_off, Hoff).
  apply broadcast_run.
Qed.

Lemma log_analysis_module_off_witness :
  log_analysis_module "/logs" 0%nat "report" "androguard" "txt"
    (set_heap {[0%nat := More.jar]} Sample.st_off)
  = (Ok tt, remember "log_androguard" (set_heap {[0%nat := More.jar]} Sample.st_off),
     [HandlerCall (Bound "mongo" "log_androguard") (ArgsAnalysis 0%nat "report")]).
Proof.
  assert (Hd : heap (set_heap {[0%nat := More.jar]} Sample.st_off) !! 0%nat
               = Some More.jar) by reflexivity.
  assert (Hm : More.jar !! "md5" = Some (VStr "92eb5ffee6ae2fec3ad71c777531578f"))
    by reflexivity.
  exact (proj1 (log_analysis_module_off "/logs" 0%nat "report" "androguard" "txt"
                  _ _ _ Hd Hm eq_refl)).
Defined.

(** The store succeeds when the file system refuses nothing. *)
Lemma store_content_ok d f c st :
  file_logging st = true ->
  d ∉ dom (fs_files (fs st)) ->
  fs_faults (fs st) !! d = None ->
  os_path_join d f ≠ d ->
  os_path_join d f ∉ fs_dirs (fs st) ->
  fs_faults (fs st) !! (os_path_join d f) = None ->
  ∃ f2,
    store_content d f c st = (Ok (Some (os_path_join d f)), set_fs f2 st, []) ∧
    fs_files f2 = <[os_path_join d f := c]> (fs_files (fs st)) ∧
    fs_faults f2 = fs_faults (fs st) ∧
    ∀ x, x ∈ fs_dirs f2 ↔ x = d ∨ x ∈ fs_dirs (fs st).
Proof.
  intros Hl Hnf Hfd Hne Hnd Hfp. rewrite store_content_run, Hl.
  unfold makedirs_fs.
  destruct (decide (d ∈ fs_dirs (fs st) ∨ d ∈ dom (fs_files (fs st))))
    as [[Hd|Hd]|Hn].
  - rewrite decide_True by reflexivity. rewrite write_step_run.
    unfold write_fs. rewrite decide_False by exact Hnd. rewrite Hfp.
    eexists. split; [reflexivity|]. simpl. split; [reflexivity|].
    split; [reflexivity|]. intros x. split; [auto|]. intros [->|Hx]; auto.
  - contradiction.
  - rewrite Hfd, write_step_run. unfold write_fs. simpl.
    rewrite decide_False, Hfp.
    + eexists. split; [reflexivity|]. simpl. split; [reflexivity|].
      split; [reflexivity|]. intros x.
      rewrite elem_of_union, elem_of_singleton. reflexivity.
    + intros [Hin|Hin]%elem_of_union; [|contradiction].
      apply elem_of_singleton in Hin. contradiction.
Qed.

Lemma log_analysis_module_stored dirname sample report module format st d md5 :
  heap st !! sample = Some d ->
  d !! "md5" = Some md5 ->
  file_logging st = true ->
  dirname ∉ dom (fs_files (fs st)) ->
  fs_faults (fs st) !! dirname = None ->
  report_path dirname md5 format ≠ dirname ->
  report_path dirname md5 format ∉ fs_dirs (fs st) ->
  fs_faults (fs st) !! (report_path dirname md5 format) = None ->
  ∃ f2,
    log_analysis_module dirname sample report module format st
    = (Ok tt, remember ("log_" +:+ module) (set_fs f2 st),
       (fun m => HandlerCall m (ArgsAnalysis sample report))
         <$> resolved ("log_" +:+ module) st) ∧
    fs_files f2 = <[report_path dirname md5 format := report]> (fs_files (fs st)) ∧
    fs_faults f2 = fs_faults (fs st) ∧
    ∀ x, x ∈ fs_dirs f2 ↔ x = dirname ∨ x ∈ fs_dirs (fs st).
Proof.
  intros Hd Hmd5 Hl H1 H2 H3 H4 H5. unfold report_path in *.
  destruct (store_content_ok dirname (str_value md5 +:+ "." +:+ format) report st
              Hl H1 H2 H3 H4 H5) as (f2 & Hs & Hf & Hfa & Hdirs).
  exists f2. split; [|auto].
  rewrite (log_analysis_module_run _ _ _ _ _ _ _ _ Hd Hmd5).
  rewrite (bind_run_ok _ _ st _ _ Hs), broadcast_run. reflexivity.
Qed.

(** X15. With file logging switched on and a file system that refuses
    nothing, [log_analysis_module] writes the report to
    [<dirname>/<md5>.<format>], in a directory that exists afterwards, and
    then hands it to every handler of [log_<module>]. *)
Theorem log_analysis_module_stores
    dirname sample report module format st d md5 :
  heap st !! sample = Some d ->
  d !! "md5" = Some md5 ->
  file_logging st = true ->
  dirname ∉ dom (fs_files (fs st)) ->
  fs_faults (fs st) !! dirname = None ->
  report_path dirname md5 format ≠ dirname ->
  report_path dirname md5 format ∉ fs_dirs (fs st) ->
  fs_faults (fs st) !! (report_path dirname md5 format) = None ->
  ∃ st',
    log_analysis_module dirname sample report module format st
    = (Ok tt, st',
       (fun m => HandlerCall m (ArgsAnalysis sample report))
         <$> resolved ("log_" +:+ module) st) ∧
    fs_files (fs st') !! (report_path dirname md5 format) = Some report ∧
    dirname ∈ fs_dirs (fs st').
Proof.
  intros Hd Hmd5 Hl H1 H2 H3 H4 H5.
  destruct (log_analysis_module_stored dirname sample report module format st d
              md5 Hd Hmd5 Hl H1 H2 H3 H4 H5) as (f2 & Hrun & Hf & _ & Hdirs).
  eexists. split; [exact Hrun|]. rewrite remember_fs. simpl.
  split; [rewrite Hf; apply lookup_insert_eq|]. apply Hdirs. left. reflexivity.
Qed.

Lemma log_analysis_module_stores_witness :
  ∃ st',
    log_analysis_module "logs" 0%nat "<xml/>" "peepdf" "xml" More.st_jar
    = (Ok tt, st', []) ∧
    fs_files (fs st') !! "logs/92eb5ffee6ae2fec3ad71c777531578f.xml"
    = Some "<xml/>".
Proof.
  assert (Hd : heap More.st_jar !! 0%nat = Some More.jar) by reflexivity.
  assert (Hm : More.jar !! "md5" = Some (VStr "92eb5ffee6ae2fec3ad71c777531578f"))
    by reflexivity.
  destruct (log_analysis_module_stores "logs" 0%nat "<xml/>" "peepdf" "xml"
              More.st_jar More.jar _ Hd Hm eq_refl)
    as (st' & Hrun & Hf & _).
  - vm_compute. discriminate.
  - reflexivity.
  - discriminate.
  - vm_compute. discriminate.
  - reflexivity.
  - exists st'. split; [exact Hrun | exact Hf].
Defined.

(** X16. The reports of virustotal and of honeyagent for one sample go to
    the same file, [<dirname>/<md5>.json]: after [log_virustotal] the file
    holds the first report, and after [log_honeyagent] it holds the second
    one instead. *)
Theorem log_honeyagent_overwrites dirname sample report1 report2 st d md5 :
  heap st !! sample = Some d ->
  d !! "md5" = Some md5 ->
  file_logging st = true ->
  dirname ∉ dom (fs_files (fs st)) ->
  fs_faults (fs st) !! dirname = None ->
  report_path dirname md5 "json" ≠ dirname ->
  report_path dirname md5 "json" ∉ fs_dirs (fs st) ->
  fs_faults (fs st) !! (report_path dirname md5 "json") = None ->
  ∃ st1 t1 st2 t2,
    log_virustotal dirname sample report1 st = (Ok tt, st1, t1) ∧
    fs_files (fs st1) !! (report_path dirname md5 "json") = Some report1 ∧
    log_honeyagent dirname sample report2 st1 = (Ok tt, st2, t2) ∧
    fs_files (fs st2) !! (report_path dirname md5 "json") = Some report2.
Proof.
  intros Hd Hmd5 Hl H1 H2 H3 H4 H5. unfold log_virustotal, log_honeyagent.
  destruct (log_analysis_module_stored dirname sample report1 "virustotal" "json"
              st d md5 Hd Hmd5 Hl H1 H2 H3 H4 H5) as (f2 & Hrun & Hf & Hfa & Hdirs).
  set (st1 := remember ("log_" +:+ "virustotal") (set_fs f2 st)) in *.
  assert (Hfs1 : fs st1 = f2) by (unfold st1; rewrite remember_fs; reflexivity).
  destruct (log_analysis_module_stored dirname sample report2 "honeyagent" "json"
              st1 d md5) as (f3 & Hrun' & Hf' & _ & _).
  - unfold st1. rewrite remember_heap. exact Hd.
  - exact Hmd5.
  - unfold st1. rewrite remember_file_logging. exact Hl.
  - rewrite Hfs1, Hf, dom_insert_L.
    intros [Hin|Hin]%elem_of_union; [|contradiction].
    apply elem_of_singleton in Hin. congruence.
  - rewrite Hfs1, Hfa. exact H2.
  - exact H3.
  - rewrite Hfs1. intros [Hin|Hin]%Hdirs; contradiction.
  - rewrite Hfs1, Hfa. exact H5.
  - eexists _, _, _, _. split; [exact Hrun|].
    split; [rewrite Hfs1, Hf; apply lookup_insert_eq|].
    split; [exact Hrun'|].
    rewrite remember_fs. simpl. rewrite Hf'. apply lookup_insert_eq.
Qed.

Lemma log_honeyagent_overwrites_witness :
  ∃ st1 t1 st2 t2,
    log_virustotal "logs" 0%nat "first" More.st_jar = (Ok tt, st1, t1) ∧
    log_honeyagent "logs" 0%nat "second" st1 = (Ok tt, st2, t2) ∧
    fs_files (fs st2) !! "logs/92eb5ffee6ae2fec3ad71c777531578f.json"
    = Some "second".
Proof.
  assert (Hd : heap More.st_jar !! 0%nat = Some More.jar) by reflexivity.
  assert (Hm : More.jar !! "md5" = Some (VStr "92eb5ffee6ae2fec3ad71c777531578f"))
    by reflexivity.
  destruct (log_honeyagent_overwrites "logs" 0%nat "first" "second"
              More.st_jar More.jar _ Hd Hm eq_refl)
    as (st1 & t1 & st2 & t2 & Hrun1 & _ & Hrun2 & Hf).
  - vm_compute. discriminate.
  - reflexivity.
  - discriminate.
  - vm_compute. discriminate.
  - reflexivity.
  - exists st1, t1, st2, t2. split; [exact Hrun1|]. split; [exact Hrun2 | exact Hf].
Defined.

(** X17. On a sample without type, [log_androguard] raises [KeyError] in the
    re-log: by then the "raw" entry is gone from the caller's dictionary,
    the [log_file] handlers and the scan service have been called, and the
    report is neither stored nor handed to any backend. *)
Theorem log_androguard_no_type dirname sample report st d :
  heap st !! sample = Some d ->
  d !! "type" = None ->
  ∃ st',
    log_androguard dirname sample report st
    = (Raise (KeyError "type"), st',
       ((fun m => HandlerCall m (ArgsLogFile (delete "raw" d) None None))
          <$> resolved "log_file" st)
       ++ [VirusTotalAnalyze (default VNone (d !! "raw")) sample (baseDir st)]) ∧
    heap st' !! sample = Some (delete "raw" d) ∧
    fs st' = fs st.
Proof.
  intros Hd Hty. eexists. split.
  - unfold log_androguard.
    rewrite (bind_run_ok _ _ st _ _ (dict_pop_run sample "raw" VNone st d Hd)).
    apply bind_run_raise.
    rewrite (__log_file_run _ _ _ _ _ (delete "raw" d))
      by (simpl; apply lookup_insert_eq).
    rewrite lookup_delete_ne, Hty by discriminate. reflexivity.
  - rewrite remember_heap, remember_fs. simpl.
    split; [apply lookup_insert_eq | reflexivity].
Qed.

Lemma log_androguard_no_type_witness :
  ∃ st' t,
    log_androguard "logs" 0%nat "report" More.st_untyped
    = (Raise (KeyError "type"), st', t) ∧
    heap st' !! 0%nat = Some (delete "raw" More.untyped) ∧
    fs st' = Sample.empty_fs.
Proof.
  assert (Hd : heap More.st_untyped !! 0%nat = Some More.untyped) by reflexivity.
  destruct (log_androguard_no_type "logs" 0%nat "report" More.st_untyped
              More.untyped Hd eq_refl) as (st' & Hrun & Hh & Hf).
  eexists _, _. split; [exact Hrun|]. split; [exact Hh | exact Hf].
Defined.

(** ** HREF redirection *)

(** X18. [log_href_redirect] reports one behavior warning, to every
    [add_behavior_warn] handler and then to the warning log, and one edge
    with method "href" from the referer to the URL, to every
    [log_connection] handler. Unlike a hop of [log_redirect] it classifies
    no URL and fetches no certificate; it leaves the cache as a hop does. *)
Theorem log_href_redirect_edge referer url st :
  ∃ t,
    log_href_redirect referer url st = (Ok tt, redirect_state st, t) ∧
    behavior_warn_calls t
    = (fun m => (m, Some (href_message referer url)))
        <$> resolved "add_behavior_warn" st ∧
    warnings t = [Some (href_message referer url)] ∧
    connection_edges t
    = (fun m => (m, referer, url, "href")) <$> resolved "log_connection" st ∧
    url_checks t = [].
Proof.
  eexists. split.
  - unfold log_href_redirect, add_behavior_warn, log_connection, bind.
    rewrite !broadcast_run. simpl. rewrite broadcast_run, resolved_remember.
    reflexivity.
  - split; [|split; [|split]].
    + unfold behavior_warn_calls. rewrite !omap_app.
      rewrite (omap_fmap_some _ _ (fun m => (m, Some (href_message referer url)))
                 (resolved "add_behavior_warn" st)) by reflexivity.
      rewrite (omap_fmap_none _ _ (resolved "log_connection" st)) by reflexivity.
      simpl. rewrite !app_nil_r. reflexivity.
    + unfold warnings. rewrite !omap_app.
      rewrite (omap_fmap_none _ _ (resolved "add_behavior_warn" st)) by reflexivity.
      rewrite (omap_fmap_none _ _ (resolved "log_connection" st)) by reflexivity.
      reflexivity.
    + unfold connection_edges. rewrite !omap_app.
      rewrite (omap_fmap_none _ _ (resolved "add_behavior_warn" st)) by reflexivity.
      rewrite (omap_fmap_some _ _ (fun m => (m, referer, url, "href"))
                 (resolved "log_connection" st)) by reflexivity.
      reflexivity.
    + rewrite !url_checks_app, !url_checks_handler_calls. reflexivity.
Qed.

(** ** Where the reports go *)

Lemma prefix_sep_cons c z :
  String.prefix "/" (String c z) = if ascii_dec "/" c then true else false.
Proof.
  change (String.prefix "/" (String c z))
    with (match ascii_dec "/" c with
          | left _ => String.prefix "" z
          | right _ => false
          end).
  destruct (ascii_dec "/" c); [|reflexivity]. destruct z; reflexivity.
Qed.

Lemma prefix_sep_app s x y :
  String.prefix "/" (s +:+ "." +:+ x) = String.prefix "/" (s +:+ "." +:+ y).
Proof.
  destruct s as [|c s]; [reflexivity|].
  change (String.prefix "/" (String c (s +:+ "." +:+ x))
          = String.prefix "/" (String c (s +:+ "." +:+ y))).
  rewrite !prefix_sep_cons. reflexivity.
Qed.

Lemma report_path_inj dirname md5 x y :
  report_path dirname md5 x = report_path dirname md5 y -> x = y.
Proof.
  unfold report_path, os_path_join.
  rewrite (prefix_sep_app (str_value md5) x y).
  destruct (String.prefix "/" (str_value md5 +:+ "." +:+ y)).
  - intros H. apply (inj (String.app (str_value md5))) in H.
    apply (inj (String.app ".")) in H. exact H.
  - destruct (String.eqb dirname "" || ends_with_sep dirname); intros H.
    + apply (inj (String.app dirname)) in H.
      apply (inj (String.app (str_value md5))) in H.
      apply (inj (String.app ".")) in H. exact H.
    + apply (inj (String.app dirname)) in H.
      apply (inj (String.app "/")) in H.
      apply (inj (String.app (str_value md5))) in H.
      apply (inj (String.app ".")) in H. exact H.
Qed.

(** X19. The reports of one sample in one directory go to three files:
    virustotal and honeyagent share [<md5>.json], androguard has
    [<md5>.txt] and peepdf [<md5>.xml], and these three paths differ. *)
Theorem report_paths_differ dirname md5 :
  report_path dirname md5 "json" ≠ report_path dirname md5 "txt" ∧
  report_path dirname md5 "json" ≠ report_path dirname md5 "xml" ∧
  report_path dirname md5 "txt" ≠ report_path dirname md5 "xml".
Proof.
  split; [|split]; intros H%report_path_inj; discriminate H.
Qed.

(** ** Construction *)

Lemma dict_setitem_elem key value d x :
  x ∈ dict_setitem key value d -> x = (key, value) ∨ x ∈ d.
Proof.
  induction d as [|kv d IH]; simpl.
  - intros Hx%list_elem_of_singleton. auto.
  - destruct (decide (kv.1 = key)).
    + intros [->|Hx]%elem_of_cons; [auto|]. right. right. exact Hx.
    + intros [->|Hx]%elem_of_cons; [right; left|].
      destruct (IH Hx) as [->|Hd]; [auto|]. right. right. exact Hd.
Qed.

Lemma dict_setitem_set key value d : (key, value) ∈ dict_setitem key value d.
Proof.
  induction d as [|kv d IH]; simpl; [left|].
  destruct (decide (kv.1 = key)); [left | right; exact IH].
Qed.

Lemma dict_setitem_keys key value d k :
  k ∈ (fst <$> dict_setitem key value d) ↔ k = key ∨ k ∈ (fst <$> d).
Proof.
  induction d as [|kv d IH]; simpl.
  - rewrite list_elem_of_singleton. split; [auto|]. intros [H|H]; [exact H|].
    inversion H.
  - destruct (decide (kv.1 = key)) as [E|E]; simpl.
    + rewrite !elem_of_cons. rewrite E. tauto.
    + rewrite !elem_of_cons, IH. tauto.
Qed.

Lemma dict_setitem_NoDup key value d :
  NoDup (fst <$> d) -> NoDup (fst <$> dict_setitem key value d).
Proof.
  induction d as [|kv d IH]; simpl; intros Hnd.
  - apply NoDup_singleton.
  - apply NoDup_cons in Hnd as [Hnin Hnd].
    destruct (decide (kv.1 = key)) as [E|E]; simpl.
    + apply NoDup_cons. rewrite <- E. auto.
    + apply NoDup_cons. split; [|auto].
      rewrite dict_setitem_keys. intros [H|H]; [congruence|contradiction].
Qed.

Lemma fold_left_invariant {A B} (P : A -> Prop) (f : A -> B -> A) l acc :
  P acc -> (∀ a x, x ∈ l -> P a -> P (f a x)) -> P (fold_left f l acc).
Proof.
  revert acc. induction l as [|x l IH]; intros acc Hacc Hf; simpl; [exact Hacc|].
  apply IH.
  - apply Hf; [left | exact Hacc].
  - intros a y Hy. apply Hf. right. exact Hy.
Qed.

Section InitProperties.

Variable LoggingModules : list (string * (string -> Module)).
Variable check_module : string -> bool.
Variable strip : string -> string.
Variable formats_of : Module -> list string.
Variable thug_version : string.

Lemma registry_NoDup :
  NoDup (fst <$> (__init_config LoggingModules check_module strip formats_of thug_version).1).
Proof.
  unfold __init_config. simpl.
  apply (fold_left_invariant (fun d => NoDup (fst <$> d))); [apply NoDup_nil_2|].
  intros d nm _ Hd. destruct (check_module nm.1); [|exact Hd].
  apply dict_setitem_NoDup, Hd.
Qed.

Lemma registry_enabled k m :
  (k, m) ∈ (__init_config LoggingModules check_module strip formats_of thug_version).1 ->
  ∃ name cls, (name, cls) ∈ LoggingModules ∧ check_module name = true ∧
              k = strip name ∧ m = cls thug_version.
Proof.
  unfold __init_config. simpl. revert k m.
  apply (fold_left_invariant
           (fun d => ∀ k m, (k, m) ∈ d ->
              ∃ name cls, (name, cls) ∈ LoggingModules ∧ check_module name = true ∧
                          k = strip name ∧ m = cls thug_version)).
  - intros k m H. inversion H.
  - intros d [name cls] Hin Hd k m. simpl.
    destruct (check_module name) eqn:E; [|apply Hd].
    intros [[= -> ->]|H]%dict_setitem_elem; [|apply Hd, H].
    exists name, cls. auto.
Qed.

Lemma registry_complete name cls :
  (name, cls) ∈ LoggingModules -> check_module name = true ->
  strip name ∈ (fst <$> (__init_config LoggingModules check_module strip formats_of thug_version).1).
Proof.
  unfold __init_config. simpl. intros Hin Hen.
  enough (H : ∀ l acc,
    ((name, cls) ∈ l ∨ strip name ∈ (fst <$> acc)) ->
    strip name ∈ (fst <$>
      fold_left
        (fun modules nm =>
           if check_module nm.1
           then dict_setitem (strip nm.1) (nm.2 thug_version) modules
           else modules) l acc)).
  { apply H. left. exact Hin. }
  induction l as [|nm l IH]; intros acc [H|H]; simpl.
  - inversion H.
  - exact H.
  - apply IH. apply elem_of_cons in H as [<-|H]; [|left; exact H].
    right. simpl. rewrite Hen. apply dict_setitem_keys. left. reflexivity.
  - apply IH. right. destruct (check_module nm.1); [|exact H].
    apply dict_setitem_keys. right. exact H.
Qed.

End InitProperties.

Lemma init_formats_elem (formats_of : Module -> list string)
    (ms : list (string * Module)) (acc : gset string) f :
  f ∈ fold_left
        (fun formats km =>
           fold_left (fun formats format => {[format]} ∪ formats)
             (formats_of km.2) formats) ms acc
  ↔ f ∈ acc ∨ ∃ km, km ∈ ms ∧ f ∈ formats_of km.2.
Proof.
  assert (Hin : ∀ (l : list string) (a : gset string),
    f ∈ fold_left (fun formats format => {[format]} ∪ formats) l a
    ↔ f ∈ a ∨ f ∈ l).
  { induction l as [|x l IH]; intros a; simpl.
    - split; [auto|]. intros [H|H]; [exact H|inversion H].
    - rewrite IH, elem_of_union, elem_of_singleton, elem_of_cons. tauto. }
  revert acc. induction ms as [|km ms IH]; intros acc; simpl.
  - split; [auto|]. intros [H|(km & H & _)]; [exact H|inversion H].
  - rewrite IH, Hin. split.
    + intros [[H|H]|(km' & H & Hf)]; [auto| |].
      * right. exists km. split; [left|exact H].
      * right. exists km'. split; [right; exact H|exact Hf].
    + intros [H|(km' & H & Hf)]; [auto|].
      apply elem_of_cons in H as [->|H]; [auto|].
      right. exists km'. auto.
Qed.

(** X20. The registry [__init_config] builds: its keys are distinct; every
    module in it is the instance of a class whose name [check_module]
    accepts, under the stripped name; the stripped name of every accepted
    class is a key; and [formats] holds exactly the formats of the modules
    in the registry. *)
Theorem init_config_registry LoggingModules check_module strip formats_of
    thug_version :
  let registry :=
    fst (__init_config LoggingModules check_module strip formats_of thug_version) in
  let formats :=
    snd (__init_config LoggingModules check_module strip formats_of thug_version) in
  NoDup (fst <$> registry) ∧
  (∀ k m, (k, m) ∈ registry ->
     ∃ name cls, (name, cls) ∈ LoggingModules ∧ check_module name = true ∧
                 k = strip name ∧ m = cls thug_version) ∧
  (∀ name cls, (name, cls) ∈ LoggingModules -> check_module name = true ->
     strip name ∈ (fst <$> registry)) ∧
  (∀ f, f ∈ formats ↔ ∃ km, km ∈ registry ∧ f ∈ formats_of (snd km)).
Proof.
  intros registry formats. split; [apply registry_NoDup|].
  split; [apply registry_enabled|]. split; [apply registry_complete|].
  intros f. unfold formats, registry, __init_config. simpl.
  rewrite init_formats_elem. split.
  - intros [H|H]; [|exact H]. apply elem_of_empty in H. contradiction.
  - intros H. right. exact H.
Qed.

Lemma init_config_registry_witness :
  fst (__init_config More.classes More.enabled More.strip More.no_formats "0.6")
  = [("json", Sample.json); ("mongo", Sample.mongo)] ∧
  ∃ name cls, (name, cls) ∈ More.classes ∧ More.enabled name = true ∧
              "json" = More.strip name ∧ Sample.json = cls "0.6".
Proof.
  split; [reflexivity|].
  apply (proj1 (proj2 (init_config_registry More.classes More.enabled More.strip
                         More.no_formats "0.6")) "json" Sample.json).
  left.
Defined.

(** ** Operations with arguments of their own *)

Lemma for_each'_emit {A} (l : list A) (f : A -> Event') st :
  for_each' l (fun x => emit' (f x)) st = (Ok tt, st, f <$> l).
Proof.
  induction l as [|x l IH]; simpl; [reflexivity|].
  unfold bind' at 1. simpl. rewrite IH. reflexivity.
Qed.

Lemma broadcast'_run name args st :
  broadcast' name args st =
  (Ok tt, remember name st, (fun m => HandlerCall' m args) <$> resolved name st).
Proof.
  unfold broadcast', bind', lift. rewrite resolve_method_run, for_each'_emit.
  reflexivity.
Qed.

Lemma add_behavior_warn_run description cve method st :
  add_behavior_warn description cve method st =
  (Ok tt, remember "add_behavior_warn" st,
   ((fun m => HandlerCall m (ArgsBehaviorWarn description cve method))
      <$> resolved "add_behavior_warn" st) ++ [LogWarning description]).
Proof. unfold add_behavior_warn, bind. rewrite broadcast_run. reflexivity. Qed.

(** X22. [log_exploit_event] with [forward] set first reports the behavior
    warning "[module] description", with the CVE, to every
    [add_behavior_warn] handler and to the warning log, and only then calls
    the [log_exploit_event] handlers; with [forward] unset no warning is
    made at all and only those handlers are called. *)
Theorem log_exploit_event_forward url module description cve data forward st :
  log_exploit_event url module description cve data forward st =
  (Ok tt,
   remember "log_exploit_event"
     (if forward then remember "add_behavior_warn" st else st),
   (if forward
    then Core <$>
           (((fun m => HandlerCall m
                 (ArgsBehaviorWarn (Some (exploit_message module description))
                    cve "Dynamic Analysis"))
               <$> resolved "add_behavior_warn" st)
            ++ [LogWarning (Some (exploit_message module description))])
    else [])
   ++ ((fun m => HandlerCall' m (ArgsExploit url module description cve data))
         <$> resolved "log_exploit_event" st)).
Proof.
  unfold log_exploit_event, bind'. destruct forward.
  - unfold lift. rewrite add_behavior_warn_run. cbv beta match.
    rewrite broadcast'_run, resolved_remember. reflexivity.
  - unfold ret'. rewrite broadcast'_run. reflexivity.
Qed.

(** X23. [log_event] calls every [export] handler, then every [log_event]
    handler, each with the output directory; after them it writes the
    message that names the directory to the warning log, exactly when file
    logging is switched on. *)
Theorem log_event_order st :
  log_event st =
  (Ok tt, remember "log_event" (remember "export" st),
   ((fun m => HandlerCall' m (ArgsBaseDir (baseDir st))) <$> resolved "export" st)
   ++ ((fun m => HandlerCall' m (ArgsBaseDir (baseDir st)))
         <$> resolved "log_event" st)
   ++ (if file_logging st
       then [Core (LogWarning
                     (Some ("Thug analysis logs saved at " +:+
                            str_opt (baseDir st))))]
       else [])).
Proof.
  unfold log_event, bind', lift, get_state. cbv beta match.
  rewrite broadcast'_run. cbv beta match.
  rewrite broadcast'_run, resolved_remember. cbv beta match.
  rewrite ?remember_file_logging, ?remember_baseDir.
  destruct (file_logging st); simpl; rewrite ?app_nil_r; reflexivity.
Qed.

(** X24. [log_certificate] reports the certificate as a behavior warning,
    to every [add_behavior_warn] handler and to the warning log, and then
    calls the [log_certificate] handlers with the URL and the
    certificate. *)
Theorem log_certificate_warns url certificate st :
  log_certificate url certificate st =
  (Ok tt, remember "log_certificate" (remember "add_behavior_warn" st),
   (Core <$>
      (((fun m => HandlerCall m
            (ArgsBehaviorWarn (Some (certificate_message certificate)) None
               "Dynamic Analysis"))
          <$> resolved "add_behavior_warn" st)
       ++ [LogWarning (Some (certificate_message certificate))]))
   ++ ((fun m => HandlerCall' m (ArgsCertificate url certificate))
         <$> resolved "log_certificate" st)).
Proof.
  unfold log_certificate, bind', lift.
  rewrite add_behavior_warn_run. cbv beta match.
  rewrite broadcast'_run, resolved_remember. reflexivity.
Qed.

(** X25. [log_warning] writes to the warning log before it calls any
    backend, while [add_behavior_warn] calls the backends first and writes
    to the warning log last. *)
Theorem log_warning_order data description cve method st :
  log_warning data st =
  (Ok tt, remember "log_warning" st,
   Core (LogWarning (Some data))
   :: ((fun m => HandlerCall' m (ArgsWarning data)) <$> resolved "log_warning" st)) ∧
  add_behavior_warn description cve method st =
  (Ok tt, remember "add_behavior_warn" st,
   ((fun m => HandlerCall m (ArgsBehaviorWarn description cve method))
      <$> resolved "add_behavior_warn" st) ++ [LogWarning description]).
Proof.
  split; [|apply add_behavior_warn_run].
  unfold log_warning, bind', emit'. rewrite broadcast'_run. reflexivity.
Qed.

(** X26. The report of peepdf does not touch the one of virustotal: after
    [log_virustotal] and then [log_peepdf] for one sample in one directory,
    [<md5>.json] still holds the first report and [<md5>.xml] holds the
    second. *)
Theorem log_peepdf_keeps_json dirname sample report1 report2 st d md5 :
  heap st !! sample = Some d ->
  d !! "md5" = Some md5 ->
  file_logging st = true ->
  dirname ∉ dom (fs_files (fs st)) ->
  fs_faults (fs st) !! dirname = None ->
  (∀ format, report_path dirname md5 format ≠ dirname) ->
  (∀ format, report_path dirname md5 format ∉ fs_dirs (fs st)) ->
  (∀ format, fs_faults (fs st) !! (report_path dirname md5 format) = None) ->
  ∃ st1 t1 st2 t2,
    log_virustotal dirname sample report1 st = (Ok tt, st1, t1) ∧
    log_peepdf dirname sample report2 st1 = (Ok tt, st2, t2) ∧
    fs_files (fs st2) !! (report_path dirname md5 "json") = Some report1 ∧
    fs_files (fs st2) !! (report_path dirname md5 "xml") = Some report2.
Proof.
  intros Hd Hmd5 Hl H1 H2 H3 H4 H5. unfold log_virustotal, log_peepdf.
  destruct (log_analysis_module_stored dirname sample report1 "virustotal" "json"
              st d md5 Hd Hmd5 Hl H1 H2 (H3 _) (H4 _) (H5 _))
    as (f2 & Hrun & Hf & Hfa & Hdirs).
  set (st1 := remember ("log_" +:+ "virustotal") (set_fs f2 st)) in *.
  assert (Hfs1 : fs st1 = f2) by (unfold st1; rewrite remember_fs; reflexivity).
  destruct (log_analysis_module_stored dirname sample report2 "peepdf" "xml"
              st1 d md5) as (f3 & Hrun' & Hf' & _ & _).
  - unfold st1. rewrite remember_heap. exact Hd.
  - exact Hmd5.
  - unfold st1. rewrite remember_file_logging. exact Hl.
  - rewrite Hfs1, Hf, dom_insert_L.
    intros [Hin|Hin]%elem_of_union; [|contradiction].
    apply elem_of_singleton in Hin. symmetry in Hin. exact (H3 _ Hin).
  - rewrite Hfs1, Hfa. exact H2.
  - apply H3.
  - rewrite Hfs1. intros [Hin|Hin]%Hdirs; [exact (H3 _ Hin) | exact (H4 _ Hin)].
  - rewrite Hfs1, Hfa. apply H5.
  - eexists _, _, _, _. split; [exact Hrun|]. split; [exact Hrun'|].
    rewrite remember_fs. simpl. rewrite Hf', Hfs1, Hf. split.
    + rewrite lookup_insert_ne; [apply lookup_insert_eq|].
      intros H%report_path_inj. discriminate H.
    + apply lookup_insert_eq.
Qed.

Lemma log_peepdf_keeps_json_witness :
  ∃ st1 t1 st2 t2,
    log_virustotal "logs" 0%nat "{}" More.st_jar = (Ok tt, st1, t1) ∧
    log_peepdf "logs" 0%nat "<xml/>" st1 = (Ok tt, st2, t2) ∧
    fs_files (fs st2) !! "logs/92eb5ffee6ae2fec3ad71c777531578f.json" = Some "{}".
Proof.
  assert (Hd : heap More.st_jar !! 0%nat = Some More.jar) by reflexivity.
  assert (Hm : More.jar !! "md5" = Some (VStr "92eb5ffee6ae2fec3ad71c777531578f"))
    by reflexivity.
  destruct (log_peepdf_keeps_json "logs" 0%nat "{}" "<xml/>"
              More.st_jar More.jar _ Hd Hm eq_refl)
    as (st1 & t1 & st2 & t2 & Hrun1 & Hrun2 & Hf & _).
  - vm_compute. discriminate.
  - reflexivity.
  - intros format. vm_compute. discriminate.
  - intros format H. apply elem_of_empty in H. exact H.
  - intros format. apply lookup_empty.
  - exists st1, t1, st2, t2. split; [exact Hrun1|]. split; [exact Hrun2 | exact Hf].
Defined.

(** ** The guard of log_redirect *)

(** C3, as stated, fails: a response that is false, with two hops and a URL
    of its own, gets nothing back, whatever the fuel. *)
Lemma log_redirect_false_response_counterexample :
  ¬ ∃ fuel st' t,
      log_redirect fuel (Some More.chain_false) Sample.st0
      = (Ok (resp_url More.chain_false), st', t).
Proof. intros (fuel & st' & t & H). discriminate H. Qed.

(** C3, amended. A response with N >= 1 hops and a URL of its own. When the
    response is false, [log_redirect] returns nothing, makes no call and
    leaves the state as it is. When it is true, [log_redirect] returns the
    response's URL, whatever the fuel; its calls are, for each hop from the
    oldest to the newest, the behavior warning to every [add_behavior_warn]
    handler and to the warning log, the edge from the hop URL to the hop's
    location, with method "http-redirect", to every [log_connection]
    handler, and the classification and certificate fetch of the hop URL;
    then the classification and certificate fetch of the final URL: N
    warnings, N edges for every handler, N+1 classify-plus-fetch pairs. *)
Theorem log_redirect_chain_guarded fuel r st :
  resp_history r ≠ [] ->
  truthy_url (resp_url r) = true ->
  (resp_true r = false ->
   log_redirect fuel (Some r) st = (Ok None, st, [])) ∧
  (resp_true r = true ->
   let ws := resolved "add_behavior_warn" st in
   let cs := resolved "log_connection" st in
   let history := resp_history r in
   ∃ st' t,
     log_redirect fuel (Some r) st = (Ok (resp_url r), st', t) ∧
     t = flat_map (hop_events ws cs) history ++ check_pairs [resp_url r] ∧
     warnings t = (fun h => Some (redirect_message h)) <$> history ∧
     length (warnings t) = length history ∧
     behavior_warn_calls t
     = flat_map (fun h => (fun m => (m, Some (redirect_message h))) <$> ws)
         history ∧
     connection_edges t
     = flat_map
         (fun h => (fun m => (m, hop_url h, hop_headers h !! "location",
                              "http-redirect")) <$> cs) history ∧
     url_checks t = check_pairs ((hop_url <$> history) ++ [resp_url r]) ∧
     length (url_checks t) = 2 * (length history + 1)).
Proof.
  intros Hh Hu. split.
  - intros Hf. unfold log_redirect. rewrite Hf. reflexivity.
  - intros Ht. exact (log_redirect_chain fuel r st Ht Hh Hu).
Qed.

Lemma log_redirect_chain_guarded_witness :
  log_redirect 0 (Some More.chain_false) Sample.st0 = (Ok None, Sample.st0, []) ∧
  ∃ st' t,
    log_redirect 0 (Some Sample.chain) Sample.st0 = (Ok (Some "http://c/"), st', t) ∧
    length (warnings t) = 2%nat ∧
    length (url_checks t) = 6%nat.
Proof.
  split.
  - apply (proj1 (log_redirect_chain_guarded 0 More.chain_false Sample.st0
                    ltac:(discriminate) eq_refl)).
    reflexivity.
  - destruct (proj2 (log_redirect_chain_guarded 0 Sample.chain Sample.st0
                       ltac:(discriminate) eq_refl) eq_refl)
      as (st' & t & Hrun & _ & _ & Hw & _ & _ & _ & Hc).
    exists st', t. split; [exact Hrun|]. split; [exact Hw | exact Hc].
Defined.

(** ** Every operation *)

Lemma cache_sound_call ms name st m args :
  cache_sound ms st -> m ∈ resolved name st -> event_name args name ->
  registered_call ms (HandlerCall m args).
Proof.
  intros HI Hin Hev. rewrite (cache_sound_resolved _ _ _ HI) in Hin.
  eapply implementers_registered; eauto.
Qed.

Lemma registered_call_other ms e :
  is_handler_call e = false -> registered_call ms e.
Proof. destruct e; intros He; try exact Logic.I. discriminate He. Qed.

Lemma cache_sound_store_content ms d f c :
  hoare (cache_sound ms) (registered_call ms) (fun _ => True)
    (store_content d f c).
Proof. apply hoare_store_content_of; auto. Qed.

Lemma cache_sound_add_behavior_warn ms d c m :
  hoare (cache_sound ms) (registered_call ms) (fun _ => True)
    (add_behavior_warn d c m).
Proof.
  apply hoare_add_behavior_warn.
  - apply cache_sound_remember.
  - apply cache_sound_call.
  - apply registered_call_other.
Qed.

Lemma cache_sound_log_href_redirect ms referer url :
  hoare (cache_sound ms) (registered_call ms) (fun _ => True)
    (log_href_redirect referer url).
Proof.
  apply hoare_log_href_redirect.
  - apply cache_sound_remember.
  - apply cache_sound_call.
  - apply registered_call_other.
Qed.

Lemma cache_sound_log_analysis_module ms d s r m f :
  hoare (cache_sound ms) (registered_call ms) (fun _ => True)
    (log_analysis_module d s r m f).
Proof.
  apply hoare_log_analysis_module.
  - apply cache_sound_remember.
  - apply cache_sound_call.
  - exact Logic.I.
  - apply cache_sound_store_content.
Qed.

Lemma cache_sound___log_file ms sample data url params :
  hoare (cache_sound ms) (registered_call ms) (fun _ => True)
    (__log_file sample data url params).
Proof.
  apply hoare___log_file.
  - apply cache_sound_remember.
  - apply cache_sound_call.
  - apply registered_call_other.
  - exact Logic.I.
  - exact Logic.I.
Qed.

Section Hoare'.

Variable I : State -> Prop.
Variable Q : Event' -> Prop.

Lemma hoare'_ret {A} (a : A) : hoare' I Q (ret' a).
Proof. intros st r st' t HI [= <- <- <-]. auto. Qed.

Lemma hoare'_emit e : Q e -> hoare' I Q (emit' e).
Proof. intros He st r st' t HI [= <- <- <-]. auto. Qed.

Lemma hoare'_bind {A B} (m : M' A) (k : A -> M' B) :
  hoare' I Q m -> (∀ a, hoare' I Q (k a)) -> hoare' I Q (bind' m k).
Proof.
  intros Hm Hk st r st' t HI. unfold bind'.
  destruct (m st) as [[ra st1] t1] eqn:Em.
  destruct (Hm _ _ _ _ HI Em) as [HI1 HQ1].
  destruct ra as [a|e|].
  - destruct (k a st1) as [[rb st2] t2] eqn:Ek.
    destruct (Hk a _ _ _ _ HI1 Ek) as [HI2 HQ2].
    intros [= <- <- <-]. split; [exact HI2|]. apply Forall_app; auto.
  - intros [= <- <- <-]. auto.
  - intros [= <- <- <-]. auto.
Qed.

Lemma hoare'_lift {A} (m : M A) (Q0 : Event -> Prop) (R : Exn -> Prop) :
  (∀ e, Q0 e -> Q (Core e)) -> hoare I Q0 R m -> hoare' I Q (lift m).
Proof.
  intros HQ Hm st r st' t HI. unfold lift.
  destruct (m st) as [[r0 st1] t1] eqn:Em.
  destruct (Hm _ _ _ _ HI Em) as (HI1 & HQ1 & _).
  intros [= <- <- <-]. split; [exact HI1|].
  apply Forall_fmap. eapply Forall_impl; [exact HQ1|]. exact HQ.
Qed.

Hypothesis I_remember : ∀ name st, I st -> I (remember name st).
Hypothesis Q_resolved :
  ∀ name st m args,
    I st -> m ∈ resolved name st -> event_name' args name ->
    Q (HandlerCall' m args).

Lemma hoare'_broadcast name args :
  event_name' args name -> hoare' I Q (broadcast' name args).
Proof.
  intros Hev st r st' t HI. rewrite broadcast'_run. intros [= <- <- <-].
  split; [apply I_remember, HI|].
  apply Forall_fmap, Forall_forall. intros m Hm. simpl.
  eapply Q_resolved; eauto.
Qed.

End Hoare'.

Lemma cache_sound_call' ms name st m args :
  cache_sound ms st -> m ∈ resolved name st -> event_name' args name ->
  registered_call' ms (HandlerCall' m args).
Proof.
  intros HI Hin Hev. rewrite (cache_sound_resolved _ _ _ HI) in Hin.
  unfold implementers in Hin.
  apply list_elem_of_fmap in Hin as (km & -> & Hkm).
  apply list_elem_of_filter in Hkm as [Hop Hkm]. simpl.
  split; [|exact Hev]. exists km. auto.
Qed.

Lemma cache_sound_lift ms {A} (m : M A) :
  hoare (cache_sound ms) (registered_call ms) (fun _ => True) m ->
  hoare' (cache_sound ms) (registered_call' ms) (lift m).
Proof. apply hoare'_lift. intros e He. exact He. Qed.

Lemma cache_sound_broadcast' ms name args :
  event_name' args name ->
  hoare' (cache_sound ms) (registered_call' ms) (broadcast' name args).
Proof.
  apply hoare'_broadcast; [apply cache_sound_remember | apply cache_sound_call'].
Qed.

(** Every operation keeps the cache sound and calls registered operations
    only. *)
Lemma cache_sound_run_op' ms bs op :
  hoare' (cache_sound ms) (registered_call' ms) (run_op' bs op).
Proof.
  destruct op; simpl run_op'.
  - apply cache_sound_lift, cache_sound_run_op.
  - apply cache_sound_lift. apply hoare_bind; [|intros; apply hoare_ret].
    apply cache_sound___log_file.
  - apply cache_sound_broadcast'. reflexivity.
  - apply cache_sound_broadcast'. reflexivity.
  - unfold log_exploit_event. apply hoare'_bind.
    + destruct forward; [|apply hoare'_ret].
      apply cache_sound_lift, cache_sound_add_behavior_warn.
    + intros _. apply cache_sound_broadcast'. reflexivity.
  - unfold log_warning. apply hoare'_bind.
    + apply hoare'_emit. exact Logic.I.
    + intros _. apply cache_sound_broadcast'. reflexivity.
  - unfold log_certificate. apply hoare'_bind.
    + apply cache_sound_lift, cache_sound_add_behavior_warn.
    + intros _. apply cache_sound_broadcast'. reflexivity.
  - unfold log_event. apply hoare'_bind.
    + apply cache_sound_lift, hoare_get_state.
    + intros s. apply hoare'_bind.
      * apply cache_sound_broadcast'. left. reflexivity.
      * intros _. apply hoare'_bind.
        -- apply cache_sound_broadcast'. right. reflexivity.
        -- intros _. destruct (file_logging s).
           ++ apply hoare'_emit. exact Logic.I.
           ++ apply hoare'_ret.
  - apply cache_sound_lift, cache_sound_log_href_redirect.
  - apply cache_sound_lift, cache_sound_log_analysis_module.
  - apply cache_sound_lift, cache_sound_log_analysis_module.
  - apply cache_sound_lift, cache_sound_log_analysis_module.
Qed.

Lemma session'_cache_sound bs st0 st :
  methods_cache st0 = ∅ -> session' bs st0 st -> cache_sound (modules st0) st.
Proof.
  intros Hempty Hs. induction Hs as [|st op r st' t _ IH Hrun].
  - split; [reflexivity|]. intros name l. rewrite Hempty, lookup_empty.
    discriminate.
  - destruct (cache_sound_run_op' _ bs op _ _ _ _ IH Hrun) as [HI _]. exact HI.
Qed.

(** X4. In a session that started with an empty cache, where the session
    and the operation range over all the methods of the class ([Op']),
    every call an operation makes to a backend goes to an operation that a
    registered module exposes, and that operation carries the name of the
    event: the arguments of a behavior warning reach only
    [add_behavior_warn], those of an edge only [log_connection], those of
    an exploit only [log_exploit_event], an output directory only [export]
    or [log_event], and so on. *)
Theorem session_calls_registered bs st0 st op r st' t :
  methods_cache st0 = ∅ ->
  session' bs st0 st ->
  run_op' bs op st = (r, st', t) ->
  Forall (registered_call' (modules st0)) t.
Proof.
  intros Hempty Hs Hrun.
  pose proof (session'_cache_sound _ _ _ Hempty Hs) as HI.
  destruct (cache_sound_run_op' (modules st0) bs op _ _ _ _ HI Hrun) as [_ HQ].
  exact HQ.
Qed.

Lemma session_calls_registered_witness :
  ∃ st t,
    session' (fun _ _ => None) More.st_maec st ∧
    t = (log_exploit_event (Some "http://a/") "ActiveX" "overflow" None VNone
           true st).2 ∧
    HandlerCall' (Bound "maec" "log_exploit_event")
      (ArgsExploit (Some "http://a/") "ActiveX" "overflow" None VNone) ∈ t ∧
    Forall (registered_call' (modules More.st_maec)) t.
Proof.
  pose (bs := fun (_ : Value) (_ : option string) => @None Dict).
  pose (st := (log_event More.st_maec).1.2).
  pose (op := OpLogExploitEvent (Some "http://a/") "ActiveX" "overflow" None
                VNone true).
  assert (Hs : session' bs More.st_maec st).
  { eapply (session'_step _ _ More.st_maec OpLogEvent);
      [apply session'_start | reflexivity]. }
  exists st, (run_op' bs op st).2.
  split; [exact Hs|]. split; [reflexivity|]. split.
  - apply list_elem_of_In. vm_compute. auto 10.
  - apply (session_calls_registered bs More.st_maec st op
             (run_op' bs op st).1.1 (run_op' bs op st).1.2
             (run_op' bs op st).2 eq_refl Hs).
    reflexivity.
Defined.

(** X21. In a session of a facade built by [__init__], where the session
    and the operation range over all the methods of the class ([Op']),
    every call to a backend goes to the instance of a class whose name
    [check_module] accepts: a module that the configuration switches off is
    never called. *)
Theorem init_disabled_never_called
    LoggingModules check_module strip formats_of thug_version env
    bs st op r st' t :
  session' bs
    (__init__ LoggingModules check_module strip formats_of thug_version env) st ->
  run_op' bs op st = (r, st', t) ->
  Forall (enabled_call' LoggingModules check_module thug_version) t.
Proof.
  intros Hs Hrun.
  pose proof (session'_cache_sound bs
                (__init__ LoggingModules check_module strip formats_of
                   thug_version env) st eq_refl Hs) as HI.
  destruct (cache_sound_run_op' _ bs op _ _ _ _ HI Hrun) as [_ HQ].
  eapply Forall_impl; [exact HQ|].
  assert (Hreg : ∀ m : Handler,
    (∃ km, km ∈ (__init_config LoggingModules check_module strip formats_of
                   thug_version).1 ∧
           im_self m = mod_name km.2 ∧ im_func m ∈ mod_ops km.2) ->
    ∃ name cls, (name, cls) ∈ LoggingModules ∧ check_module name = true ∧
                im_self m = mod_name (cls thug_version)).
  { intros m ([k mo] & Hkm & Hself & _).
    destruct (registry_enabled LoggingModules check_module strip formats_of
                thug_version k mo Hkm) as (name & cls & H1 & H2 & _ & ->).
    exists name, cls. auto. }
  intros [[m args| | | | | | |]|m args]; simpl; try solve [auto].
  - intros [H _]. apply Hreg, H.
  - intros [H _]. apply Hreg, H.
Qed.

Lemma init_disabled_never_called_witness :
  ∃ t,
    t = (log_event
           (__init__ More.classes_maec More.enabled More.strip More.no_formats
              "0.6" Sample.st0)).2 ∧
    HandlerCall' (Bound "maec" "export") (ArgsBaseDir None) ∈ t ∧
    Forall (enabled_call' More.classes_maec More.enabled "0.6") t.
Proof.
  pose (bs := fun (_ : Value) (_ : option string) => @None Dict).
  pose (s0 := __init__ More.classes_maec More.enabled More.strip More.no_formats
                "0.6" Sample.st0).
  exists (run_op' bs OpLogEvent s0).2.
  split; [reflexivity|]. split.
  - apply list_elem_of_In. vm_compute. auto 10.
  - apply (init_disabled_never_called More.classes_maec More.enabled More.strip
             More.no_formats "0.6" Sample.st0 bs s0 OpLogEvent
             (run_op' bs OpLogEvent s0).1.1 (run_op' bs OpLogEvent s0).1.2
             (run_op' bs OpLogEvent s0).2 (session'_start _ _)).
    reflexivity.
Defined.
